(** * Nova AutoPilot: the orchestration core, embedded and verified

    A shallow embedding of [nova_autopilot/models.py] and
    [nova_autopilot/autopilot.py].  The result records are Rocq records, the
    Python values that flow through them are an inductive type, and the code
    that talks to the outside (the Nova Act SDK, Bedrock, [json], [jsonschema])
    runs in a small state-and-exception monad: every call to a collaborator is
    answered by an environment that sees the whole history of calls, and is
    appended to a log.

    Wall-clock fields ([execution_time], [started_at], [completed_at],
    [extraction_time], [total_execution_time], [ActionStep.timestamp]) and
    logging are left out: they are read from the clock, written once, and no
    control flow depends on them. *)

From Stdlib Require Import String Ascii List ZArith Bool Lia PrimFloat.
Import ListNotations.
Open Scope string_scope.
Open Scope Z_scope.
Set Warnings "-register-all".

(** ** Python values *)

Module Py.

(** The values that cross the boundary with the collaborators: what
    [json.loads] can produce, plus [bytes] (screenshots). A dict keeps its
    insertion order; its keys are strings, as in JSON. *)
Inductive pyval : Type :=
| PyNone
| PyBool (b : bool)
| PyInt (z : Z)
| PyFloat (f : float)
| PyStr (s : string)
| PyBytes (b : list ascii)
| PyList (l : list pyval)
| PyDict (d : list (string * pyval)).

(** [bool(v)]: what an [if v:] tests. *)
Definition truthy (v : pyval) : bool :=
  match v with
  | PyNone => false
  | PyBool b => b
  | PyInt z => negb (z =? 0)
  | PyFloat f => negb (PrimFloat.eqb f 0%float)
  | PyStr s => negb (String.eqb s "")
  | PyBytes b => match b with [] => false | _ => true end
  | PyList l => match l with [] => false | _ => true end
  | PyDict d => match d with [] => false | _ => true end
  end.

(** [isinstance(v, str)] *)
Definition is_str (v : pyval) : bool :=
  match v with PyStr _ => true | _ => false end.

(** The three classes of exception the handlers of the source tell apart:
    [except ImportError], [except Exception], and what neither catches
    ([KeyboardInterrupt], [SystemExit], [GeneratorExit]: subclasses of
    [BaseException] only). *)
Inductive exc_class : Type :=
| ImportError        (* ImportError and its subclasses *)
| Exception          (* any other subclass of Exception *)
| BaseException.     (* a BaseException that is not an Exception *)

Record exc : Type := mkExc { exc_cls : exc_class; exc_str : string }.

(** [isinstance(e, Exception)] *)
Definition is_Exception (e : exc) : bool :=
  match exc_cls e with BaseException => false | _ => true end.

(** [isinstance(e, ImportError)] *)
Definition is_ImportError (e : exc) : bool :=
  match exc_cls e with ImportError => true | _ => false end.

Inductive outcome (A : Type) : Type :=
| Ok (a : A)
| Raise (e : exc).
Arguments Ok {A} a.
Arguments Raise {A} e.

Definition type_name (v : pyval) : string :=
  match v with
  | PyNone => "NoneType" | PyBool _ => "bool" | PyInt _ => "int"
  | PyFloat _ => "float" | PyStr _ => "str" | PyBytes _ => "bytes"
  | PyList _ => "list" | PyDict _ => "dict"
  end.

Fixpoint dict_lookup (d : list (string * pyval)) (k : string) : option pyval :=
  match d with
  | [] => None
  | (k', v) :: d' => if String.eqb k' k then Some v else dict_lookup d' k
  end.

(** [v[k]] for a string key [k]. *)
Definition getitem_key (v : pyval) (k : string) : outcome pyval :=
  match v with
  | PyDict d =>
      match dict_lookup d k with
      | Some x => Ok x
      | None => Raise (mkExc Exception ("'" ++ k ++ "'"))            (* KeyError *)
      end
  | PyList _ | PyStr _ | PyBytes _ =>
      Raise (mkExc Exception (type_name v ++ " indices must be integers")) (* TypeError *)
  | _ => Raise (mkExc Exception ("'" ++ type_name v ++ "' object is not subscriptable"))
  end.

(** [v[0]] *)
Definition getitem_0 (v : pyval) : outcome pyval :=
  match v with
  | PyList (x :: _) => Ok x
  | PyStr (String c _) => Ok (PyStr (String c ""))
  | PyBytes (c :: _) => Ok (PyInt (Z.of_nat (nat_of_ascii c)))
  | PyList [] | PyStr EmptyString | PyBytes [] =>
      Raise (mkExc Exception (type_name v ++ " index out of range")) (* IndexError *)
  | PyDict _ => Raise (mkExc Exception "0")                            (* KeyError *)
  | _ => Raise (mkExc Exception ("'" ++ type_name v ++ "' object is not subscriptable"))
  end.

(** [v.get(k, default)]: only a dict has the method. *)
Definition get (v : pyval) (k : string) (default : pyval) : outcome pyval :=
  match v with
  | PyDict d =>
      match dict_lookup d k with Some x => Ok x | None => Ok default end
  | _ => Raise (mkExc Exception                                        (* AttributeError *)
                  ("'" ++ type_name v ++ "' object has no attribute 'get'"))
  end.

Fixpoint chars (s : string) : list pyval :=
  match s with
  | EmptyString => []
  | String c s' => PyStr (String c "") :: chars s'
  end.

(** [iter(v)], run to the end: what a comprehension [for s in v] ranges over. *)
Definition iterate (v : pyval) : outcome (list pyval) :=
  match v with
  | PyList l => Ok l
  | PyStr s => Ok (chars s)
  | PyBytes b => Ok (map (fun c => PyInt (Z.of_nat (nat_of_ascii c))) b)
  | PyDict d => Ok (map (fun kv => PyStr (fst kv)) d)
  | _ => Raise (mkExc Exception ("'" ++ type_name v ++ "' object is not iterable"))
  end.

(** [range(n)] *)
Definition range (n : Z) : list Z :=
  map Z.of_nat (seq 0 (Z.to_nat n)).

End Py.
Import Py.

(** ** models.py *)

Record TaskResult : Type := mkTaskResult {
  success : bool;
  data : pyval;
  error : option string;
  screenshots : list pyval;
  steps_taken : list pyval
}.

Record ExtractResult : Type := mkExtractResult {
  x_success : bool;
  x_data : pyval;
  source_url : option string;
  schema_validated : bool;
  x_error : option string
}.

Record ChainResult : Type := mkChainResult {
  c_success : bool;
  results : list TaskResult;
  tasks_completed : Z;
  tasks_failed : Z
}.

(** [ChainResult.all_succeeded] *)
Definition all_succeeded (c : ChainResult) : bool :=
  (tasks_failed c =? 0) && (tasks_completed c >? 0).

Record ActionStep : Type := mkActionStep {
  action : pyval;
  target : pyval;
  value : pyval;
  step_success : bool;
  step_screenshot : pyval
}.

(** [ActionStep(action=a, target=t, value=v)], the other fields defaulted. *)
Definition new_ActionStep (a t v : pyval) : ActionStep :=
  mkActionStep a t v true PyNone.

Record TaskPlan : Type := mkTaskPlan {
  task : string;
  steps : list ActionStep;
  estimated_duration : pyval;
  requires_auth : pyval;
  human_review_needed : pyval
}.

(** ** The collaborators *)

(** Every way the code reaches outside the repository. *)
Inductive call : Type :=
| Boto3Client (region_name : string)   (* import boto3; boto3.client("bedrock-runtime", ...) *)
| InvokeModel (modelId prompt : string) (* self._bedrock.invoke_model(...) *)
| ReadBody                             (* response["body"].read() *)
| JsonLoads (v : pyval)                (* json.loads(v) *)
| NovaActImport                        (* from nova_act import NovaAct *)
| NovaActNew (starting_page : string) (headless : bool) (timeout : Z)
| NovaStart                            (* nova.start() *)
| NovaStop                             (* nova.stop() *)
| NovaAct (task : string)              (* nova.act(task) *)
| NovaActGet (task : string)           (* nova.act_get(task) *)
| NovaScreenshot                       (* nova.screenshot() *)
| JsonschemaValidate (instance schema : pyval).
                                       (* from jsonschema import validate; validate(...) *)

Inductive reply : Type :=
| Raises (e : exc)
| Returns (v : pyval).

Record event : Type := mkEvent { ev_call : call; ev_reply : reply }.

(** The calls made so far, the latest first. *)
Definition trace : Type := list event.

(** The outside world: how it answers a call after a given history, and
    whether the SDK's session class has an [act_get] method. *)
Record env : Type := mkEnv {
  respond : trace -> call -> reply;
  sdk_has_act_get : bool
}.

(** ** The agent object *)

Inductive bedrock_client : Type := BedrockRuntime (region_name : string).

(** The attribute [self._nova_class]: [__init__] does not create it. *)
Inductive nova_class_attr : Type :=
| AttrMissing      (* no such attribute *)
| AttrNone         (* None *)
| AttrNovaAct.     (* the SDK's class *)

Record AutoPilot : Type := mkAutoPilot {
  headless : bool;
  timeout : Z;
  max_retries : Z;
  region : string;
  model_id : string;
  _bedrock : option bedrock_client;
  _nova_class : nova_class_attr;
  _session_active : bool
}.

(** [AutoPilot.__init__]; [getenv] is [os.getenv] without a default. *)
Definition AutoPilot_init (getenv : string -> option string)
    (headless : bool) (timeout max_retries : Z) (region model_id : option string)
    : AutoPilot :=
  let or_env (x : option string) (name default : string) :=
    match x with
    | Some s => if truthy (PyStr s) then s
                else match getenv name with Some e => e | None => default end
    | None => match getenv name with Some e => e | None => default end
    end in
  {| headless := headless;
     timeout := timeout;
     max_retries := max_retries;
     region := or_env region "AWS_REGION" "us-east-1";
     model_id := or_env model_id "NOVA_BEDROCK_MODEL" "amazon.nova-pro-v1:0";
     _bedrock := None;
     _nova_class := AttrMissing;
     _session_active := false |}.

Definition set_bedrock (b : option bedrock_client) (a : AutoPilot) : AutoPilot :=
  mkAutoPilot (headless a) (timeout a) (max_retries a) (region a) (model_id a)
              b (_nova_class a) (_session_active a).

Definition set_nova_class (c : nova_class_attr) (a : AutoPilot) : AutoPilot :=
  mkAutoPilot (headless a) (timeout a) (max_retries a) (region a) (model_id a)
              (_bedrock a) c (_session_active a).

Definition set_session_active (b : bool) (a : AutoPilot) : AutoPilot :=
  mkAutoPilot (headless a) (timeout a) (max_retries a) (region a) (model_id a)
              (_bedrock a) (_nova_class a) b.

(** ** The monad *)

(** What persists across calls: the agent object and the log. *)
Record world : Type := mkWorld { self : AutoPilot; log : trace }.

Module Monad.

(** A computation with local variables of type [L]: it may update them and
    the world, and ends by returning or raising. The state at the moment of a
    raise is kept: a handler sees the mutations done before it. *)
Definition M (L A : Type) : Type := L -> world -> outcome A * L * world.

Section Ops.
Context {L : Type}.

Definition ret {A} (a : A) : M L A := fun l w => (Ok a, l, w).

Definition raise {A} (e : exc) : M L A := fun l w => (Raise e, l, w).

Definition bind {A B} (m : M L A) (k : A -> M L B) : M L B :=
  fun l w =>
    match m l w with
    | (Ok a, l', w') => k a l' w'
    | (Raise e, l', w') => (Raise e, l', w')
    end.

Definition lift {A} (o : outcome A) : M L A :=
  match o with Ok a => ret a | Raise e => raise e end.

Definition get_local : M L L := fun l w => (Ok l, l, w).

Definition modify_local (f : L -> L) : M L unit := fun l w => (Ok tt, f l, w).

Definition get_self : M L AutoPilot := fun l w => (Ok (self w), l, w).

Definition modify_self (f : AutoPilot -> AutoPilot) : M L unit :=
  fun l w => (Ok tt, l, mkWorld (f (self w)) (log w)).

(** [try: m except Exception as e: h e] *)
Definition try_except {A} (m : M L A) (h : exc -> M L A) : M L A :=
  fun l w =>
    match m l w with
    | (Raise e, l', w') =>
        if is_Exception e then h e l' w' else (Raise e, l', w')
    | r => r
    end.

(** [try: m except ImportError: h] *)
Definition try_except_ImportError {A} (m : M L A) (h : M L A) : M L A :=
  fun l w =>
    match m l w with
    | (Raise e, l', w') =>
        if is_ImportError e then h l' w' else (Raise e, l', w')
    | r => r
    end.

(** [try: m finally: f]: [f] runs on every exit of [m]; what it raises
    replaces the outcome of [m]. *)
Definition try_finally {A} (m : M L A) (f : M L unit) : M L A :=
  fun l w =>
    match m l w with
    | (o, l', w') =>
        match f l' w' with
        | (Ok _, l'', w'') => (o, l'', w'')
        | (Raise e, l'', w'') => (Raise e, l'', w'')
        end
    end.

Inductive loop_ctl : Type := Continue | Break.

(** [for x in xs: body x] *)
Fixpoint for_in {X} (xs : list X) (body : X -> M L loop_ctl) : M L unit :=
  match xs with
  | [] => ret tt
  | x :: xs' =>
      bind (body x) (fun c =>
        match c with
        | Break => ret tt
        | Continue => for_in xs' body
        end)
  end.

(** A call to a collaborator: answered by the environment from the history,
    and logged. *)
Definition extern (E : env) (c : call) : M L pyval :=
  fun l w =>
    let r := respond E (log w) c in
    let w' := mkWorld (self w) (mkEvent c r :: log w) in
    match r with
    | Raises e => (Raise e, l, w')
    | Returns v => (Ok v, l, w')
    end.

End Ops.

(** A method call: the callee runs with its own locals, starting from [init];
    the caller's are untouched. *)
Definition call_frame {L L' A} (init : L') (m : M L' A) : M L A :=
  fun l w => let '(o, _, w') := m init w in (o, l, w').

(** [[f x for x in xs]] where [f] may raise. *)
Fixpoint map_outcome {A B} (f : A -> outcome B) (xs : list A) : outcome (list B) :=
  match xs with
  | [] => Ok []
  | x :: xs' =>
      match f x with
      | Raise e => Raise e
      | Ok y => match map_outcome f xs' with
                | Raise e => Raise e
                | Ok ys => Ok (y :: ys)
                end
      end
  end.

End Monad.
Import Monad.

Declare Scope py_scope.
Delimit Scope py_scope with py.
Notation "x <- m ;; k" := (bind m (fun x => k))
  (at level 61, m at next level, right associativity) : py_scope.
Notation "m ;; k" := (bind m (fun _ => k))
  (at level 61, right associativity) : py_scope.
Open Scope py_scope.

(** ** autopilot.py *)

(** What [_browser_session] yields. *)
Inductive session : Type :=
| RealNova                               (* an instance of the SDK's class *)
| MockNovaSession (url : option string).

Definition nl : string := String (ascii_of_nat 10) "".

(** The f-string of [_plan_task]. *)
Definition planning_prompt (task : string) : string :=
  "Analyze this web automation task and create an execution plan." ++ nl ++ nl
  ++ "Task: " ++ task ++ nl ++ nl
  ++ "Return a JSON object with:" ++ nl
  ++ "- steps: array of action objects (action, target, value)" ++ nl
  ++ "- estimated_duration: seconds" ++ nl
  ++ "- requires_auth: boolean" ++ nl
  ++ "- human_review_needed: boolean" ++ nl ++ nl
  ++ "Be specific about selectors and actions. Keep steps atomic.".

(** The plan of both fallback branches of [_plan_task]:
    [TaskPlan(task=task, steps=[ActionStep(action="execute", value=task)],
    estimated_duration=30.0)]. *)
Definition simple_plan (task : string) : TaskPlan :=
  {| task := task;
     steps := [new_ActionStep (PyStr "execute") PyNone (PyStr task)];
     estimated_duration := PyFloat 30%float;
     requires_auth := PyBool false;
     human_review_needed := PyBool false |}.

(** [ActionStep(action=s.get("action", ""), target=s.get("target"),
    value=s.get("value"))] *)
Definition step_of (s : pyval) : outcome ActionStep :=
  match get s "action" (PyStr "") with
  | Raise e => Raise e
  | Ok a =>
      match get s "target" PyNone with
      | Raise e => Raise e
      | Ok t =>
          match get s "value" PyNone with
          | Raise e => Raise e
          | Ok v => Ok (new_ActionStep a t v)
          end
      end
  end.

(** [result["content"][0]["text"]] *)
Definition content_text (result : pyval) : outcome pyval :=
  match getitem_key result "content" with
  | Raise e => Raise e
  | Ok c =>
      match getitem_0 c with
      | Raise e => Raise e
      | Ok c0 => getitem_key c0 "text"
      end
  end.

(** The comprehension over [plan_data.get("steps", [])]. *)
Definition plan_steps (plan_data : pyval) : outcome (list ActionStep) :=
  match get plan_data "steps" (PyList []) with
  | Raise e => Raise e
  | Ok ss =>
      match iterate ss with
      | Raise e => Raise e
      | Ok l => map_outcome step_of l
      end
  end.

Definition set_success (b : bool) (r : TaskResult) : TaskResult :=
  mkTaskResult b (data r) (error r) (screenshots r) (steps_taken r).
Definition set_data (v : pyval) (r : TaskResult) : TaskResult :=
  mkTaskResult (success r) v (error r) (screenshots r) (steps_taken r).
Definition set_error (e : option string) (r : TaskResult) : TaskResult :=
  mkTaskResult (success r) (data r) e (screenshots r) (steps_taken r).
Definition append_screenshot (v : pyval) (r : TaskResult) : TaskResult :=
  mkTaskResult (success r) (data r) (error r) (screenshots r ++ [v]) (steps_taken r).
Definition set_steps_taken (l : list pyval) (r : TaskResult) : TaskResult :=
  mkTaskResult (success r) (data r) (error r) (screenshots r) l.

Definition set_x_success (b : bool) (r : ExtractResult) : ExtractResult :=
  mkExtractResult b (x_data r) (source_url r) (schema_validated r) (x_error r).
Definition set_x_data (v : pyval) (r : ExtractResult) : ExtractResult :=
  mkExtractResult (x_success r) v (source_url r) (schema_validated r) (x_error r).
Definition set_schema_validated (b : bool) (r : ExtractResult) : ExtractResult :=
  mkExtractResult (x_success r) (x_data r) (source_url r) b (x_error r).
Definition set_x_error (e : option string) (r : ExtractResult) : ExtractResult :=
  mkExtractResult (x_success r) (x_data r) (source_url r) (schema_validated r) e.

Definition append_result (t : TaskResult) (c : ChainResult) : ChainResult :=
  mkChainResult (c_success c) (results c ++ [t]) (tasks_completed c) (tasks_failed c).
Definition incr_completed (c : ChainResult) : ChainResult :=
  mkChainResult (c_success c) (results c) (tasks_completed c + 1) (tasks_failed c).
Definition incr_failed (c : ChainResult) : ChainResult :=
  mkChainResult (c_success c) (results c) (tasks_completed c) (tasks_failed c + 1).
Definition set_c_success (b : bool) (c : ChainResult) : ChainResult :=
  mkChainResult b (results c) (tasks_completed c) (tasks_failed c).

(** What reading [self._nova_class] raises when [__init__] was the only
    writer. *)
Definition no_nova_class : exc :=
  mkExc Exception "'AutoPilot' object has no attribute '_nova_class'".

Section AutoPilot.
Variable E : env.

(** *** The session handle *)
Section Session.
Context {L : Type}.

Definition act (nova : session) (task : string) : M L pyval :=
  match nova with
  | RealNova => extern E (NovaAct task)
  | MockNovaSession _ =>
      ret (PyDict [("status", PyStr "mock"); ("task", PyStr task)])
  end.

Definition act_get (nova : session) (task : string) : M L pyval :=
  match nova with
  | RealNova => extern E (NovaActGet task)
  | MockNovaSession _ =>
      ret (PyDict [("data", PyList []); ("status", PyStr "mock")])
  end.

Definition screenshot (nova : session) : M L pyval :=
  match nova with
  | RealNova => extern E NovaScreenshot
  | MockNovaSession _ => ret (PyBytes [])
  end.

(** [hasattr(nova, "act_get")] *)
Definition has_act_get (nova : session) : bool :=
  match nova with
  | RealNova => sdk_has_act_get E
  | MockNovaSession _ => true
  end.
End Session.

Section Methods.
Context {L : Type}.

Definition _init_nova : M L unit :=
  try_except_ImportError
    (extern E NovaActImport ;;
     modify_self (set_nova_class AttrNovaAct))
    (modify_self (set_nova_class AttrNone)).

Definition _init_bedrock : M L unit :=
  try_except
    (a <- get_self ;;
     extern E (Boto3Client (region a)) ;;
     modify_self (set_bedrock (Some (BedrockRuntime (region a)))))
    (fun _ => modify_self (set_bedrock None)).

(** [with self._browser_session(starting_url) as nova: body nova] *)
Definition _browser_session {A} (starting_url : option string)
    (body : session -> M L A) : M L A :=
  a <- get_self ;;
  match _nova_class a with
  | AttrMissing => raise no_nova_class
  | AttrNone => _init_nova
  | AttrNovaAct => ret tt
  end ;;
  a <- get_self ;;
  match _nova_class a with
  | AttrMissing => raise no_nova_class
  | AttrNovaAct =>
      let starting_page :=
        match starting_url with
        | Some u => if truthy (PyStr u) then u else "about:blank"
        | None => "about:blank"
        end in
      extern E (NovaActNew starting_page (headless a) (timeout a)) ;;
      try_finally
        (extern E NovaStart ;;
         modify_self (set_session_active true) ;;
         body RealNova)
        (extern E NovaStop ;;
         modify_self (set_session_active false))
  | AttrNone => body (MockNovaSession starting_url)
  end.

(** The [try] block of [_plan_task]. *)
Definition llm_plan (task : string) : M L TaskPlan :=
  a <- get_self ;;
  extern E (InvokeModel (model_id a) (planning_prompt task)) ;;
  body <- extern E ReadBody ;;
  result <- extern E (JsonLoads body) ;;
  text <- lift (content_text result) ;;
  plan_data <- extern E (JsonLoads text) ;;
  steps <- lift (plan_steps plan_data) ;;
  d <- lift (get plan_data "estimated_duration" (PyFloat 30%float)) ;;
  ra <- lift (get plan_data "requires_auth" (PyBool false)) ;;
  hr <- lift (get plan_data "human_review_needed" (PyBool false)) ;;
  ret (mkTaskPlan task steps d ra hr).

Definition _plan_task (task : string) : M L TaskPlan :=
  a <- get_self ;;
  match _bedrock a with None => _init_bedrock | Some _ => ret tt end ;;
  a <- get_self ;;
  match _bedrock a with
  | None => ret (simple_plan task)
  | Some _ =>
      try_except (llm_plan task) (fun _ => ret (simple_plan task))
  end.
End Methods.

(** The body of the [for attempt in range(self.max_retries)] loop of
    [execute]; its local is [result]. *)
Definition attempt_body (nova : session) (task : string) (plan : TaskPlan)
    (capture_screenshots : bool) (attempt : Z) : M TaskResult loop_ctl :=
  try_except
    (nova_result <- act nova task ;;
     modify_local (set_success true) ;;
     modify_local (set_data nova_result) ;;
     modify_local (set_steps_taken (map action (steps plan))) ;;
     (if capture_screenshots then
        try_except
          (shot <- screenshot nova ;;
           if truthy shot then modify_local (append_screenshot shot)
           else ret tt)
          (fun _ => ret tt)
      else ret tt) ;;
     ret Break)
    (fun e =>
       a <- get_self ;;
       (if attempt =? max_retries a - 1
        then modify_local (set_error (Some (exc_str e)))
        else ret tt) ;;
       ret Continue).

Definition new_TaskResult : TaskResult :=
  mkTaskResult false PyNone None [] [].

(** [with self._browser_session(starting_url) as nova: for attempt in
    range(self.max_retries): ...] *)
Definition attempt_loop (task : string) (plan : TaskPlan)
    (capture_screenshots : bool) (nova : session) : M TaskResult unit :=
  a <- get_self ;;
  for_in (range (max_retries a))
         (attempt_body nova task plan capture_screenshots).

(** The outer [try] block of [execute]. *)
Definition execute_try (task : string) (starting_url : option string)
    (capture_screenshots : bool) : M TaskResult unit :=
  plan <- _plan_task task ;;
  (* if plan.human_review_needed: a warning is logged *)
  _browser_session starting_url (attempt_loop task plan capture_screenshots).

Definition execute {L} (task : string) (starting_url : option string)
    (capture_screenshots : bool) : M L TaskResult :=
  call_frame new_TaskResult
    (try_except
       (execute_try task starting_url capture_screenshots)
       (fun e => modify_local (set_error (Some (exc_str e)))) ;;
     get_local).

Definition new_ExtractResult (starting_url : option string) : ExtractResult :=
  mkExtractResult false (PyDict []) starting_url false None.

(** The body of the [with] block of [extract]; [schema] is [PyNone] when
    the caller supplies none. *)
Definition extract_session (task : string) (schema : pyval) (nova : session)
    : M ExtractResult unit :=
  data <- (if has_act_get nova then act_get nova task
           else
             raw <- act nova (task ++ ". Return the result as JSON.") ;;
             if is_str raw then extern E (JsonLoads raw) else ret raw) ;;
  modify_local (set_x_data data) ;;
  modify_local (set_x_success true) ;;
  if truthy schema then
    try_except
      (extern E (JsonschemaValidate data schema) ;;
       modify_local (set_schema_validated true))
      (fun _ => modify_local (set_schema_validated false))
  else ret tt.

Definition extract {L} (task : string) (starting_url : option string)
    (schema : pyval) : M L ExtractResult :=
  call_frame (new_ExtractResult starting_url)
    (try_except
       (_browser_session starting_url (extract_session task schema))
       (fun e => modify_local (set_x_error (Some (exc_str e)))) ;;
     get_local).

(** The body of the [for task in tasks] loop of [chain]; its local is
    [result]. *)
Definition chain_body (current_url : option string) (stop_on_failure : bool)
    (task : string) : M ChainResult loop_ctl :=
  task_result <- execute task current_url true ;;
  modify_local (append_result task_result) ;;
  if success task_result then
    modify_local incr_completed ;;
    ret Continue
  else
    modify_local incr_failed ;;
    modify_local (set_c_success false) ;;
    if stop_on_failure then ret Break else ret Continue.

Definition new_ChainResult : ChainResult := mkChainResult true [] 0 0.

Definition chain {L} (tasks : list string) (starting_url : option string)
    (stop_on_failure : bool) : M L ChainResult :=
  call_frame new_ChainResult
    (let current_url := starting_url in
     for_in tasks (chain_body current_url stop_on_failure) ;;
     get_local).

End AutoPilot.

(** ** Vocabulary of the properties *)

Definition is_act (c : call) : bool :=
  match c with NovaAct _ => true | _ => false end.

Definition is_stop (c : call) : bool :=
  match c with NovaStop => true | _ => false end.

(** The calls that open a session: importing the SDK, constructing the
    session object, and its start hook. *)
Definition opens_session (c : call) : bool :=
  match c with NovaActImport | NovaActNew _ _ _ | NovaStart => true | _ => false end.

(** Constructing the SDK's session and starting it. *)
Definition starts_session (c : call) : bool :=
  match c with NovaActNew _ _ _ | NovaStart => true | _ => false end.

(** The calls of a session's life other than the import of the SDK. *)
Definition lifecycle_call (c : call) : bool :=
  match c with NovaActNew _ _ _ | NovaStart | NovaStop => true | _ => false end.

(** The calls by which [extract] obtains its data from the SDK's session:
    [act_get] when the session has it, else [act] and [json.loads]. *)
Definition extracts_data (E : env) (c : call) : bool :=
  match c with
  | NovaActGet _ => sdk_has_act_get E
  | NovaAct _ | JsonLoads _ => negb (sdk_has_act_get E)
  | _ => false
  end.

Definition validates (schema : pyval) (c : call) : Prop :=
  exists d, c = JsonschemaValidate d schema.

(** The [act] attempts of a log, the first attempt first. *)
Definition act_attempts (tr : trace) : list event :=
  rev (filter (fun ev => is_act (ev_call ev)) tr).

(** An [act] attempt on [task] that raised an [Exception]. *)
Definition failed_act (task : string) (ev : event) : Prop :=
  ev_call ev = NovaAct task
  /\ exists e, ev_reply ev = Raises e /\ is_Exception e = true.

(** How a logged call ended. *)
Definition returned (ev : event) : Prop := exists v, ev_reply ev = Returns v.
Definition raised (ev : event) : Prop := exists e, ev_reply ev = Raises e.

Section Environments.
Variable E : env.

(** Whatever a collaborator raises is an [Exception]: nothing like a
    [KeyboardInterrupt] arrives. *)
Definition catchable : Prop :=
  forall tr c e, respond E tr c = Raises e -> is_Exception e = true.

(** Every exception of a collaborator has a message. *)
Definition messages_nonempty : Prop :=
  forall tr c e, respond E tr c = Raises e -> exc_str e <> "".

Definition never_raises (P : call -> Prop) : Prop :=
  forall tr c, P c -> exists v, respond E tr c = Returns v.

Definition always_raises (P : call -> Prop) : Prop :=
  forall tr c, P c -> exists e, respond E tr c = Raises e.

(** The SDK imports, and its session constructs and starts. *)
Definition opens_cleanly : Prop :=
  never_raises (fun c => opens_session c = true).

(** The session's stop hook returns. *)
Definition closes_cleanly : Prop :=
  never_raises (fun c => is_stop c = true).

Definition act_always_fails : Prop :=
  always_raises (fun c => is_act c = true).

(** A session is obtained: importing the SDK succeeds or fails with an
    [ImportError] (the mock takes over), and the SDK's session constructs and
    starts. *)
Definition session_opens : Prop :=
  (forall tr e, respond E tr NovaActImport = Raises e -> is_ImportError e = true)
  /\ never_raises (fun c => starts_session c = true).

(** No failure of the session itself: importing the SDK succeeds or fails
    with an [ImportError] (the mock takes over), and the constructor, the
    start hook and the stop hook return. *)
Definition session_works : Prop :=
  (forall tr e, respond E tr NovaActImport = Raises e -> is_ImportError e = true)
  /\ never_raises (fun c => lifecycle_call c = true).

(** The 1-indexed position of the first task of [tasks] whose [execute]
    result has [success = false], when the tasks are executed in order
    from the world [w]. *)
Fixpoint first_failure (tasks : list string) (starting_url : option string)
    (w : world) : option nat :=
  match tasks with
  | [] => None
  | t :: ts =>
      match execute E (L := unit) t starting_url true tt w with
      | (Ok r, _, w') =>
          if success r then option_map S (first_failure ts starting_url w')
          else Some 1%nat
      | (Raise _, _, _) => None
      end
  end.
End Environments.

(** ** Vocabulary of the proofs *)

(** The calls [_plan_task] makes. *)
Definition planner_call (c : call) : bool :=
  match c with Boto3Client _ | InvokeModel _ _ | ReadBody | JsonLoads _ => true | _ => false end.

(** The calls [_browser_session] makes itself. *)
Definition session_call (c : call) : bool := opens_session c || is_stop c.

(** [grows P old tr]: the log [tr] is [old] with calls satisfying [P] added. *)
Inductive grows (P : call -> bool) (old : trace) : trace -> Prop :=
| grows_nil : grows P old old
| grows_cons c r tr : P c = true -> grows P old tr -> grows P old (mkEvent c r :: tr).

(** What the operations on Python values raise: an [Exception] with a
    message. *)
Definition internal (e : exc) : Prop := is_Exception e = true /\ exc_str e <> "".

(** [e] is something the environment raises on a call satisfying [P]. *)
Definition env_raised (E : env) (P : call -> bool) (e : exc) : Prop :=
  exists tr c, respond E tr c = Raises e /\ P c = true.

(** A raise is either internal or comes from the environment. *)
Definition origin (E : env) (P : call -> bool) (e : exc) : Prop :=
  internal e \/ env_raised E P e.

(** The calls of the attempt loop of [execute]. *)
Definition loop_call (c : call) : bool :=
  match c with NovaAct _ | NovaScreenshot => true | _ => false end.

Definition any_call (c : call) : bool := true.

(** What [_browser_session] lets through of its own calls: an import error
    that is not an [ImportError], and whatever the constructor, the start hook
    or the stop hook raise. *)
Inductive session_error (E : env) (e : exc) : Prop :=
| import_error tr :
    respond E tr NovaActImport = Raises e -> is_ImportError e = false ->
    session_error E e
| lifecycle_error tr c :
    respond E tr c = Raises e -> lifecycle_call c = true ->
    session_error E e.

(** Why no session was obtained: an import error that is not an
    [ImportError], or a constructor or start hook that raises. *)
Inductive opening_error (E : env) (e : exc) : Prop :=
| import_failed tr :
    respond E tr NovaActImport = Raises e -> is_ImportError e = false ->
    opening_error E e
| start_failed tr c :
    respond E tr c = Raises e -> starts_session c = true ->
    opening_error E e.

(** ** Running the model *)

(** The mock handle of the tests: [pilot._nova_class = None] on a default
    agent, in a process where neither SDK can be imported. *)
Definition no_sdk : env :=
  {| respond := fun _ c =>
       match c with
       | Boto3Client _ | NovaActImport | JsonschemaValidate _ _ =>
           Raises (mkExc ImportError "No module named")
       | _ => Returns PyNone
       end;
     sdk_has_act_get := false |}.

Definition default_pilot : AutoPilot :=
  AutoPilot_init (fun _ => None) true 60 3 None None.

Definition test_pilot : world :=
  mkWorld (set_nova_class AttrNone default_pilot) [].

(** What a call answers when a scenario says nothing about it: [boto3] is not
    installed, [json.loads] is given something that is not JSON, the validator
    accepts, and the browser does what it is asked and returns [None]. *)
Definition default_reply (c : call) : reply :=
  match c with
  | Boto3Client _ => Raises (mkExc ImportError "No module named 'boto3'")
  | JsonLoads _ => Raises (mkExc Exception "Expecting value: line 1 column 1 (char 0)")
  | _ => Returns PyNone
  end.

(** An environment that answers a call the same way whatever came before:
    as [f] says, or by default; the SDK's session has [act_get]. *)
Definition scripted (f : call -> option reply) : env :=
  {| respond := fun _ c => match f c with Some r => r | None => default_reply c end;
     sdk_has_act_get := true |}.

(** An agent whose [_nova_class] holds the SDK's class, as after [_init_nova]
    where the SDK is installed. *)
Definition sdk_pilot (max_retries : Z) : world :=
  mkWorld (set_nova_class AttrNovaAct
             (AutoPilot_init (fun _ => None) true 60 max_retries None None)) [].

(** [str(KeyboardInterrupt())] is empty. *)
Definition KeyboardInterrupt : exc := mkExc BaseException "".

(** A browser where everything works. *)
Definition quiet : env := scripted (fun _ => None).

(** A browser that works, with a stop hook that raises. *)
Definition stop_fails : env :=
  scripted (fun c =>
    match c with
    | NovaStop => Some (Raises (mkExc Exception "stop failed"))
    | NovaAct _ => Some (Returns (PyStr "done"))
    | _ => None
    end).

(** A browser whose [act] raises an exception without a message. *)
Definition act_fails_silently : env :=
  scripted (fun c =>
    match c with
    | NovaAct _ => Some (Raises (mkExc Exception ""))
    | _ => None
    end).

(** The operator interrupts the first [act]. *)
Definition act_interrupted : env :=
  scripted (fun c =>
    match c with
    | NovaAct _ => Some (Raises KeyboardInterrupt)
    | _ => None
    end).

(** A browser whose every [act] raises, the message telling the attempts
    apart by their number. *)
Definition act_fails : env :=
  {| respond := fun tr c =>
       match c with
       | NovaAct _ =>
           Raises (mkExc Exception
                     (String.concat "" (repeat "!" (length (act_attempts tr)))
                      ++ " act failed"))
       | _ => default_reply c
       end;
     sdk_has_act_get := true |}.

(** A browser whose first [act] raises and whose later ones return. *)
Definition act_fails_once : env :=
  {| respond := fun tr c =>
       match c with
       | NovaAct _ =>
           match act_attempts tr with
           | [] => Raises (mkExc Exception "page not loaded")
           | _ => Returns (PyStr "done")
           end
       | NovaScreenshot => Returns (PyBytes ["P"%char; "N"%char; "G"%char])
       | _ => default_reply c
       end;
     sdk_has_act_get := true |}.

(** A browser whose every [act] raises the same thing, with a stop hook that
    raises too. *)
Definition act_and_stop_fail : env :=
  scripted (fun c =>
    match c with
    | NovaAct _ => Some (Raises (mkExc Exception "act failed"))
    | NovaStop => Some (Raises (mkExc Exception "stop failed"))
    | _ => None
    end).

(** A browser that does not start. *)
Definition start_fails : env :=
  scripted (fun c =>
    match c with
    | NovaStart => Some (Raises (mkExc Exception "start failed"))
    | _ => None
    end).

(** An LLM that answers with an empty JSON object. *)
Definition llm_garbled : env :=
  scripted (fun c =>
    match c with
    | Boto3Client _ | InvokeModel _ _ => Some (Returns PyNone)
    | ReadBody => Some (Returns (PyStr "{}"))
    | JsonLoads (PyStr s) =>
        if String.eqb s "{}" then Some (Returns (PyDict [])) else None
    | _ => None
    end).

(** The operator interrupts the call to the LLM. *)
Definition llm_interrupted : env :=
  scripted (fun c =>
    match c with
    | Boto3Client _ => Some (Returns PyNone)
    | InvokeModel _ _ => Some (Raises KeyboardInterrupt)
    | _ => None
    end).

(** A page whose price is not a number, and a validator that says so. *)
Definition nonconforming : env :=
  scripted (fun c =>
    match c with
    | NovaActGet _ => Some (Returns (PyDict [("price", PyStr "cheap")]))
    | JsonschemaValidate _ _ =>
        Some (Raises (mkExc Exception "'cheap' is not of type 'number'"))
    | _ => None
    end).

Definition price_schema : pyval :=
  PyDict [("type", PyStr "object");
          ("properties", PyDict [("price", PyDict [("type", PyStr "number")])])].

(** A browser on which the task ["b"] cannot be done. *)
Definition b_fails : env :=
  scripted (fun c =>
    match c with
    | NovaAct t =>
        if String.eqb t "b" then Some (Raises (mkExc Exception "no such button"))
        else Some (Returns (PyStr "done"))
    | _ => None
    end).

(** * Properties *)

(** ** The scenarios of the test suite *)

Example test_mock_execution :
  fst (fst (execute no_sdk (L := unit) "Test task" None true tt test_pilot))
  = Ok (mkTaskResult true
          (PyDict [("status", PyStr "mock"); ("task", PyStr "Test task")])
          None [] [PyStr "execute"]).
Proof. vm_compute. reflexivity. Qed.

Example test_chain_execution :
  match fst (fst (chain no_sdk (L := unit) ["Task 1"; "Task 2"; "Task 3"] None true
                    tt test_pilot)) with
  | Ok c => tasks_completed c = 3 /\ tasks_failed c = 0 /\ all_succeeded c = true
  | Raise _ => False
  end.
Proof. vm_compute. repeat split. Qed.

Example test_mock_extraction :
  fst (fst (extract no_sdk (L := unit) "x" (Some "https://example.com") PyNone
              tt test_pilot))
  = Ok (mkExtractResult true
          (PyDict [("data", PyList []); ("status", PyStr "mock")])
          (Some "https://example.com") false None).
Proof. vm_compute. reflexivity. Qed.

(** On an agent fresh from [__init__] the attribute is missing, and the
    lookup's [AttributeError] becomes the result's error. *)
Example fresh_pilot_execute :
  fst (fst (execute no_sdk (L := unit) "Test task" None true tt
              (mkWorld default_pilot [])))
  = Ok (mkTaskResult false PyNone
          (Some "'AutoPilot' object has no attribute '_nova_class'") [] []).
Proof. vm_compute. reflexivity. Qed.

Example test_plan_without_bedrock :
  fst (fst (_plan_task no_sdk (L := unit) "Navigate to example.com" tt
              (mkWorld default_pilot [])))
  = Ok (simple_plan "Navigate to example.com").
Proof. vm_compute. reflexivity. Qed.

(** An LLM that answers with an empty JSON object: the lookup of [content]
    fails and the plan is the simple one. *)
Example plan_without_content :
  fst (fst (_plan_task llm_garbled (L := unit) "t" tt (sdk_pilot 3)))
  = Ok (simple_plan "t")
  /\ map ev_call (log (snd (_plan_task llm_garbled (L := unit) "t" tt (sdk_pilot 3))))
     = [JsonLoads (PyStr "{}"); ReadBody;
        InvokeModel "amazon.nova-pro-v1:0" (planning_prompt "t");
        Boto3Client "us-east-1"].
Proof. vm_compute. split; reflexivity. Qed.

(** ** The attempt loop at work *)

(** Three attempts, the error of the last one. *)
Example three_attempts :
  execute act_fails (L := unit) "t" None true tt (sdk_pilot 3)
  = (Ok (mkTaskResult false PyNone (Some "!! act failed") [] []), tt,
     mkWorld (self (sdk_pilot 3))
       [mkEvent NovaStop (Returns PyNone);
        mkEvent (NovaAct "t") (Raises (mkExc Exception "!! act failed"));
        mkEvent (NovaAct "t") (Raises (mkExc Exception "! act failed"));
        mkEvent (NovaAct "t") (Raises (mkExc Exception " act failed"));
        mkEvent NovaStart (Returns PyNone);
        mkEvent (NovaActNew "about:blank" true 60) (Returns PyNone);
        mkEvent (Boto3Client "us-east-1")
                (Raises (mkExc ImportError "No module named 'boto3'"))]).
Proof. vm_compute. reflexivity. Qed.

(** A failed attempt that is not the last leaves no error behind. *)
Example second_attempt_succeeds :
  fst (fst (execute act_fails_once (L := unit) "t" (Some "https://example.com") true
              tt (sdk_pilot 3)))
  = Ok (mkTaskResult true (PyStr "done") None
          [PyBytes ["P"%char; "N"%char; "G"%char]] [PyStr "execute"]).
Proof. vm_compute. reflexivity. Qed.

(** ** Inversion of the monad's operations *)

Section Inversion.
Context {L : Type}.
Implicit Types (l : L) (w : world).

Lemma ret_inv {A} (a : A) l w o l' w' :
  ret a l w = (o, l', w') -> o = Ok a /\ l' = l /\ w' = w.
Proof. unfold ret. intros H. injection H as <- <- <-. auto. Qed.

Lemma raise_inv {A} e l w (o : outcome A) l' w' :
  raise e l w = (o, l', w') -> o = Raise e /\ l' = l /\ w' = w.
Proof. unfold raise. intros H. injection H as <- <- <-. auto. Qed.

Lemma bind_inv {A B} (m : M L A) (k : A -> M L B) l w o l' w' :
  bind m k l w = (o, l', w') ->
  (exists a l1 w1, m l w = (Ok a, l1, w1) /\ k a l1 w1 = (o, l', w'))
  \/ (exists e, m l w = (Raise e, l', w') /\ o = Raise e).
Proof.
  unfold bind. destruct (m l w) as [[[a|e] l1] w1]; intros H.
  - left. eauto.
  - right. injection H as <- <- <-. eauto.
Qed.

Lemma lift_inv {A} (x : outcome A) l w o l' w' :
  lift x l w = (o, l', w') -> o = x /\ l' = l /\ w' = w.
Proof. destruct x; cbn; intros H; [apply ret_inv in H | apply raise_inv in H]; tauto. Qed.

Lemma get_local_inv l w o l' w' :
  get_local l w = (o, l', w') -> o = Ok l /\ l' = l /\ w' = w.
Proof. unfold get_local. intros H. injection H as <- <- <-. auto. Qed.

Lemma modify_local_inv f l w o l' w' :
  modify_local f l w = (o, l', w') -> o = Ok tt /\ l' = f l /\ w' = w.
Proof. unfold modify_local. intros H. injection H as <- <- <-. auto. Qed.

Lemma get_self_inv l w o l' w' :
  get_self l w = (o, l', w') -> o = Ok (self w) /\ l' = l /\ w' = w.
Proof. unfold get_self. intros H. injection H as <- <- <-. auto. Qed.

Lemma modify_self_inv f l w o l' w' :
  modify_self f l w = (o, l', w') ->
  o = Ok tt /\ l' = l /\ w' = mkWorld (f (self w)) (log w).
Proof. unfold modify_self. intros H. injection H as <- <- <-. auto. Qed.

Lemma extern_inv E c l w o l' w' :
  extern E c l w = (o, l', w') ->
  l' = l /\
  ((exists v, respond E (log w) c = Returns v /\ o = Ok v
              /\ w' = mkWorld (self w) (mkEvent c (Returns v) :: log w))
   \/ (exists e, respond E (log w) c = Raises e /\ o = Raise e
                 /\ w' = mkWorld (self w) (mkEvent c (Raises e) :: log w))).
Proof.
  unfold extern. destruct (respond E (log w) c) eqn:R; intros H;
    injection H as <- <- <-; eauto 7.
Qed.

Lemma try_except_inv {A} (m : M L A) h l w o l' w' :
  try_except m h l w = (o, l', w') ->
  (exists a, m l w = (Ok a, l', w') /\ o = Ok a)
  \/ (exists e, m l w = (Raise e, l', w') /\ is_Exception e = false /\ o = Raise e)
  \/ (exists e l1 w1, m l w = (Raise e, l1, w1) /\ is_Exception e = true
                      /\ h e l1 w1 = (o, l', w')).
Proof.
  unfold try_except. destruct (m l w) as [[[a|e] l1] w1]; intros H.
  - injection H as <- <- <-. eauto.
  - destruct (is_Exception e) eqn:X.
    + right; right. eauto 7.
    + injection H as <- <- <-. right; left. eauto.
Qed.

Lemma try_except_ImportError_inv {A} (m : M L A) h l w o l' w' :
  try_except_ImportError m h l w = (o, l', w') ->
  (exists a, m l w = (Ok a, l', w') /\ o = Ok a)
  \/ (exists e, m l w = (Raise e, l', w') /\ is_ImportError e = false /\ o = Raise e)
  \/ (exists e l1 w1, m l w = (Raise e, l1, w1) /\ is_ImportError e = true
                      /\ h l1 w1 = (o, l', w')).
Proof.
  unfold try_except_ImportError. destruct (m l w) as [[[a|e] l1] w1]; intros H.
  - injection H as <- <- <-. eauto.
  - destruct (is_ImportError e) eqn:X.
    + right; right. eauto 7.
    + injection H as <- <- <-. right; left. eauto.
Qed.

Lemma try_finally_inv {A} (m : M L A) f l w o l' w' :
  try_finally m f l w = (o, l', w') ->
  exists o1 l1 w1, m l w = (o1, l1, w1) /\
    ((exists u, f l1 w1 = (Ok u, l', w') /\ o = o1)
     \/ (exists e, f l1 w1 = (Raise e, l', w') /\ o = Raise e)).
Proof.
  unfold try_finally. destruct (m l w) as [[o1 l1] w1].
  destruct (f l1 w1) as [[[u|e] l2] w2] eqn:F; intros H; injection H as <- <- <-;
    exists o1, l1, w1; (split; [reflexivity|]).
  - left; eauto.
  - right; eauto.
Qed.
End Inversion.

Lemma call_frame_inv {L L' A} (init : L') (m : M L' A) (l : L) w o l' w' :
  call_frame init m l w = (o, l', w') ->
  l' = l /\ exists lf, m init w = (o, lf, w').
Proof.
  unfold call_frame. destruct (m init w) as [[o1 l1] w1]. intros H.
  injection H as <- <- <-. eauto.
Qed.

(** One step of symbolic execution on a hypothesis [m l w = (o, l', w')]. *)
Ltac inv_step :=
  match goal with
  | H : ret _ _ _ = _ |- _ => apply ret_inv in H; destruct H as (? & ? & ?)
  | H : raise _ _ _ = _ |- _ => apply raise_inv in H; destruct H as (? & ? & ?)
  | H : lift _ _ _ = _ |- _ => apply lift_inv in H; destruct H as (? & ? & ?)
  | H : get_local _ _ = _ |- _ => apply get_local_inv in H; destruct H as (? & ? & ?)
  | H : modify_local _ _ _ = _ |- _ => apply modify_local_inv in H; destruct H as (? & ? & ?)
  | H : get_self _ _ = _ |- _ => apply get_self_inv in H; destruct H as (? & ? & ?)
  | H : modify_self _ _ _ = _ |- _ => apply modify_self_inv in H; destruct H as (? & ? & ?)
  | H : extern _ _ _ _ = _ |- _ =>
      apply extern_inv in H; destruct H as (? & [(? & ? & ? & ?) | (? & ? & ? & ?)])
  | H : bind _ _ _ _ = _ |- _ =>
      apply bind_inv in H; destruct H as [(? & ? & ? & ? & H) | (? & ? & ?)];
      [cbv beta in H | ]
  | H : try_except _ _ _ _ = _ |- _ =>
      apply try_except_inv in H;
      destruct H as [(? & ? & ?) | [(? & ? & ? & ?) | (? & ? & ? & ? & ? & H)]];
      [ | | cbv beta in H]
  | H : try_except_ImportError _ _ _ _ = _ |- _ =>
      apply try_except_ImportError_inv in H;
      destruct H as [(? & ? & ?) | [(? & ? & ? & ?) | (? & ? & ? & ? & ? & ?)]]
  | H : try_finally _ _ _ _ = _ |- _ =>
      apply try_finally_inv in H;
      destruct H as (? & ? & ? & ? & [(? & ? & ?) | (? & ? & ?)])
  | H : call_frame _ _ _ _ = _ |- _ =>
      apply call_frame_inv in H; destruct H as (? & ? & H)
  | H : Ok _ = Ok _ |- _ => injection H as H
  | H : Raise _ = Raise _ |- _ => injection H as H
  | H : Ok _ = Raise _ |- _ => discriminate H
  | H : Raise _ = Ok _ |- _ => discriminate H
  end; subst.

(** The same on a test the computation branches on. *)
Ltac inv_match :=
  match goal with
  | H : (match ?x with _ => _ end) _ _ = _ |- _ => destruct x eqn:?
  | H : (if ?x then _ else _) _ _ = _ |- _ => destruct x eqn:?
  end.

Ltac inv_run := repeat (inv_step || inv_match).

(** ** Growth of the log *)

Create HintDb py.
#[export] Hint Constructors grows : py.

Lemma grows_trans P a b c : grows P a b -> grows P b c -> grows P a c.
Proof. intros Hab Hbc. induction Hbc; auto with py. Qed.

Lemma grows_weaken (P Q : call -> bool) a b :
  (forall c, P c = true -> Q c = true) -> grows P a b -> grows Q a b.
Proof. intros HPQ H. induction H; auto with py. Qed.

Lemma grows_app P old tr :
  grows P old tr ->
  exists new, tr = (new ++ old)%list /\ Forall (fun ev => P (ev_call ev) = true) new.
Proof.
  induction 1 as [|c r tr Hc _ (new & -> & Hnew)].
  - exists []. auto.
  - exists (mkEvent c r :: new). auto.
Qed.

Lemma self_set_bedrock a : a = set_bedrock (_bedrock a) a.
Proof. destruct a; reflexivity. Qed.

(** ** What the operations on Python values raise *)

Section PureFacts.
Lemma type_name_nonempty v t : type_name v ++ t <> "".
Proof. destruct v; discriminate. Qed.

Lemma getitem_key_internal v k e : getitem_key v k = Raise e -> internal e.
Proof.
  unfold getitem_key, internal.
  destruct v; try destruct (dict_lookup d k); intros H; inversion H; subst; cbn;
    (split; [reflexivity | first [apply type_name_nonempty | discriminate]]).
Qed.

Lemma getitem_0_internal v e : getitem_0 v = Raise e -> internal e.
Proof.
  unfold getitem_0, internal.
  destruct v as [| | | |[|]|[|]|[|]|]; intros H; inversion H; subst; cbn;
    (split; [reflexivity | discriminate]).
Qed.

Lemma get_internal v k d e : get v k d = Raise e -> internal e.
Proof.
  unfold get, internal.
  destruct v; try destruct (dict_lookup _ k); intros H; inversion H; subst; cbn;
    (split; [reflexivity | discriminate]).
Qed.

Lemma iterate_internal v e : iterate v = Raise e -> internal e.
Proof.
  unfold iterate, internal.
  destruct v; intros H; inversion H; subst; cbn; (split; [reflexivity | discriminate]).
Qed.

Lemma step_of_internal s e : step_of s = Raise e -> internal e.
Proof.
  unfold step_of.
  destruct (get s "action" _) eqn:Ha; [|intros H; inversion H; subst; eauto using get_internal].
  destruct (get s "target" _) eqn:Ht; [|intros H; inversion H; subst; eauto using get_internal].
  destruct (get s "value" _) eqn:Hv; [|intros H; inversion H; subst; eauto using get_internal].
  discriminate.
Qed.

Lemma map_outcome_raise {A B} (f : A -> outcome B) (P : exc -> Prop) xs e :
  (forall x e, f x = Raise e -> P e) -> map_outcome f xs = Raise e -> P e.
Proof.
  intros Hf. induction xs as [|x xs IH]; cbn; [discriminate|].
  destruct (f x) eqn:Hx.
  - destruct (map_outcome f xs); [discriminate|]. intros H; inversion H; subst; auto.
  - intros H; inversion H; subst; eauto.
Qed.

Lemma content_text_internal r e : content_text r = Raise e -> internal e.
Proof.
  unfold content_text.
  destruct (getitem_key r "content") eqn:H1;
    [|intros H; inversion H; subst; eauto using getitem_key_internal].
  destruct (getitem_0 a) eqn:H2;
    [|intros H; inversion H; subst; eauto using getitem_0_internal].
  apply getitem_key_internal.
Qed.

Lemma plan_steps_internal d e : plan_steps d = Raise e -> internal e.
Proof.
  unfold plan_steps.
  destruct (get d "steps" _) eqn:H1; [|intros H; inversion H; subst; eauto using get_internal].
  destruct (iterate a) eqn:H2; [|intros H; inversion H; subst; eauto using iterate_internal].
  apply map_outcome_raise. apply step_of_internal.
Qed.
End PureFacts.

#[export] Hint Resolve get_internal content_text_internal plan_steps_internal : py.

(** ** The stages of [execute]: planning, the session, the attempts *)

Ltac solve_grows := cbn [self log]; auto 12 with py.

Section Stages.
Variable E : env.

Lemma init_bedrock_cases {L} (l : L) w o l' w' :
  _init_bedrock E l w = (o, l', w') ->
  l' = l /\ (exists b, self w' = set_bedrock b (self w)) /\
  grows planner_call (log w) (log w') /\
  (o = Ok tt \/ exists e, o = Raise e /\ is_Exception e = false
                          /\ env_raised E planner_call e).
Proof.
  unfold _init_bedrock. intros H. inv_run; cbn [self log];
    (split; [reflexivity|]);
    (split; [first [eexists; reflexivity | eexists; apply self_set_bedrock]|]);
    (split; [solve_grows|]); auto.
  right. unfold env_raised. eauto 8.
Qed.

Lemma llm_plan_cases {L} task (l : L) w o l' w' :
  llm_plan E task l w = (o, l', w') ->
  l' = l /\ self w' = self w /\ grows planner_call (log w) (log w') /\
  (forall e, o = Raise e -> origin E planner_call e).
Proof.
  unfold llm_plan. intros H.
  inv_run; cbn [self log];
    (split; [reflexivity|]); (split; [reflexivity|]); (split; [solve_grows|]);
    intros e' He'; inversion He'; subst;
    solve [ left; eauto with py | right; unfold env_raised; eauto 8 ].
Qed.

Lemma internal_is_Exception e : internal e -> is_Exception e = true.
Proof. intros [H _]; exact H. Qed.

Lemma init_backend_cases {L} (l : L) w o l' w' :
  match _bedrock (self w) with Some _ => ret tt | None => _init_bedrock E end l w
  = (o, l', w') ->
  l' = l /\ (exists b, self w' = set_bedrock b (self w)) /\
  grows planner_call (log w) (log w') /\
  (o = Ok tt \/ exists e, o = Raise e /\ is_Exception e = false
                          /\ env_raised E planner_call e).
Proof.
  destruct (_bedrock (self w)) eqn:Hb; intros H.
  - inv_step. repeat split; auto with py. eexists; apply self_set_bedrock.
  - now apply init_bedrock_cases.
Qed.

Lemma plan_task_cases {L} task (l : L) w o l' w' :
  _plan_task E task l w = (o, l', w') ->
  l' = l /\
  (exists b, self w' = set_bedrock b (self w)) /\
  grows planner_call (log w) (log w') /\
  ((exists p, o = Ok p)
   \/ (exists e, o = Raise e /\ is_Exception e = false /\ env_raised E planner_call e)).
Proof.
  unfold _plan_task. intros H.
  repeat inv_step;
    match goal with
    | H : _ l w = _ |- _ =>
        apply init_backend_cases in H as (-> & Hself & Hg & Ho)
    end.
  2:{ destruct Ho as [Ho | (e & Ho & He & Hr)]; [discriminate|].
      inversion Ho; subst. eauto 8. }
  match goal with H : _ = (o, l', w') |- _ => rename H into Hrest end.
  match type of Hrest with context [_bedrock (self ?w1)] =>
    destruct (_bedrock (self w1)) eqn:Hb end.
  - inv_step;
      match goal with H : llm_plan _ _ _ _ = _ |- _ =>
        apply llm_plan_cases in H as (? & Hs & Hg' & Hor) end;
      subst; repeat inv_step; rewrite Hs;
      (split; [reflexivity|]); (split; [assumption|]);
      (split; [eauto using grows_trans|]); eauto.
    right. destruct (Hor _ eq_refl) as [Hi | Hr]; [|eauto].
    apply internal_is_Exception in Hi. congruence.
  - inv_step. eauto 8.
Qed.

Lemma browser_session_cases {L A} url (body : session -> M L A) l w o l' w' :
  _browser_session E url body l w = (o, l', w') ->
  (exists e, o = Raise e /\ l' = l
     /\ max_retries (self w') = max_retries (self w)
     /\ grows session_call (log w) (log w')
     /\ ((e = no_nova_class /\ _nova_class (self w) = AttrMissing)
         \/ session_error E e)
     /\ (_nova_class (self w) = AttrMissing \/ exists e0, opening_error E e0))
  \/ (exists w1 e, max_retries (self w1) = max_retries (self w)
        /\ grows session_call (log w) (log w1)
        /\ respond E (log w) NovaActImport = Raises e
        /\ body (MockNovaSession url) l w1 = (o, l', w'))
  \/ (exists w1 ob wb, max_retries (self w1) = max_retries (self w)
        /\ grows session_call (log w) (log w1)
        /\ body RealNova l w1 = (ob, l', wb)
        /\ ((exists v, respond E (log wb) NovaStop = Returns v /\ o = ob
               /\ w' = mkWorld (set_session_active false (self wb))
                               (mkEvent NovaStop (Returns v) :: log wb))
            \/ (exists e, respond E (log wb) NovaStop = Raises e /\ o = Raise e
                  /\ w' = mkWorld (self wb) (mkEvent NovaStop (Raises e) :: log wb)))).
Proof.
  unfold _browser_session, _init_nova. intros H.
  inv_run; cbn [self log _nova_class set_nova_class set_session_active max_retries] in *;
    try congruence.
  all: try solve [ left; eexists; do 4 (split; [solve [reflexivity | solve_grows]|]);
         split;
         [ solve [ left; auto | right; eauto using import_error, lifecycle_error ]
         | solve [ left; auto
                 | right; eexists; eauto using import_failed, start_failed ] ] ].
  all: try solve [ right; left; do 2 eexists;
                   split; [| split; [| split; [|eassumption] ] ];
                   [ reflexivity | solve_grows | eassumption ] ].
  all: try solve [ right; right; do 3 eexists;
                   split; [| split; [| split; [eassumption|] ] ];
                   [ reflexivity | solve_grows | eauto 8 ] ].
Qed.

Lemma session_error_raised e : session_error E e -> env_raised E session_call e.
Proof.
  intros [tr Hr _ | tr c Hr Hc]; [exists tr, NovaActImport | exists tr, c];
    (split; [assumption|]); [reflexivity | destruct c; try discriminate; reflexivity].
Qed.

Lemma attempt_body_cases nova task plan cap attempt r w o r' w' :
  attempt_body E nova task plan cap attempt r w = (o, r', w') ->
  self w' = self w /\
  ( ((* the attempt succeeded *)
    (success r' = true /\ error r' = error r /\ grows loop_call (log w) (log w')
     /\ (nova = RealNova -> exists tr v, respond E tr (NovaAct task) = Returns v)
     /\ (o = Ok Break
         \/ exists e, o = Raise e /\ is_Exception e = false /\ env_raised E loop_call e))
    \/ (* it raised an Exception *)
    (exists e, nova = RealNova /\ is_Exception e = true
       /\ respond E (log w) (NovaAct task) = Raises e
       /\ log w' = mkEvent (NovaAct task) (Raises e) :: log w
       /\ o = Ok Continue
       /\ r' = if attempt =? max_retries (self w) - 1
               then set_error (Some (exc_str e)) r else r)
    \/ (* it raised something else *)
    (exists e, o = Raise e /\ is_Exception e = false /\ env_raised E loop_call e
       /\ r' = r /\ grows loop_call (log w) (log w'))) ).
Proof.
  unfold attempt_body, act, screenshot. intros H.
  destruct nova; inv_run; cbn [self log success error set_success set_data set_steps_taken
                                 append_screenshot] in *; try congruence.
  all: (split; [reflexivity|]).
  all: try solve [ left; repeat (split; [solve [reflexivity | solve_grows | eauto | discriminate]|]);
                   solve [ left; reflexivity | right; unfold env_raised; eauto 8] ].
  all: try solve [ right; left; eexists; repeat (split; [solve [reflexivity | eassumption]|]);
                   first [ rewrite Z.eqb_refl; reflexivity | reflexivity
                         | match goal with H : (_ =? _) = _ |- _ => rewrite H; reflexivity end ] ].
  all: try solve [ right; right; eexists; repeat (split; [solve [reflexivity | eassumption | solve_grows | unfold env_raised; eauto 8]|]); solve_grows ].
Qed.

Lemma attempts_spec nova task plan cap m : forall k r w o r' w',
  for_in (map Z.of_nat (seq k m)) (attempt_body E nova task plan cap) r w
  = (o, r', w') ->
  max_retries (self w) = Z.of_nat (k + m) ->
  success r = false -> error r = None ->
  self w' = self w /\
  grows loop_call (log w) (log w') /\
  match o with
  | Raise e => is_Exception e = false /\ env_raised E loop_call e /\ error r' = None
  | Ok _ =>
      if success r' then
        error r' = None
        /\ (nova = RealNova -> exists tr v, respond E tr (NovaAct task) = Returns v)
      else
        exists new, log w' = (new ++ log w)%list
          /\ length new = m /\ Forall (failed_act task) new
          /\ (m = 0%nat -> r' = r)
          /\ ((0 < m)%nat ->
              exists e, nova = RealNova /\ env_raised E is_act e
                        /\ hd_error new = Some (mkEvent (NovaAct task) (Raises e))
                        /\ r' = set_error (Some (exc_str e)) r)
  end.
Proof.
  induction m as [|m IH]; intros k r w o r' w' H Hmax Hs He; cbn [seq map for_in] in H.
  - inv_run. rewrite Hs. split; [reflexivity|]. split; [constructor|].
    exists []. repeat split; auto; lia.
  - apply bind_inv in H as [(c & r1 & w1 & Hb & H) | (e & Hb & ->)];
      apply attempt_body_cases in Hb
        as (Hself & [(Hs1 & He1 & Hg & Hret & Ho) | [(e1 & -> & Hx & Hr & Hl & Ho & Hr1)
                                                    | (e1 & Ho & Hx & Hr & -> & Hg)]]).
    + (* succeeded *)
      destruct Ho as [Ho | (e & Ho & _)]; [|discriminate]. inversion Ho; subst c.
      inv_run. rewrite Hs1. repeat split; auto. congruence.
    + (* raised an Exception: next attempt *)
      inversion Ho; subst c. clear Ho.
      destruct m as [|m'].
      * cbn [seq map for_in] in H. inv_run.
        replace (Z.of_nat k =? max_retries (self w) - 1) with true
          by (symmetry; apply Z.eqb_eq; lia).
        cbn [success set_error]. rewrite Hs.
        split; [assumption|]. split; [rewrite Hl; solve_grows|].
        exists [mkEvent (NovaAct task) (Raises e1)]. rewrite Hl.
        repeat split; auto.
        -- repeat constructor. cbn. eauto.
        -- discriminate.
        -- intros _. exists e1. repeat split. exists (log w), (NovaAct task). auto.
      * replace (Z.of_nat k =? max_retries (self w) - 1) with false in Hr1
          by (symmetry; apply Z.eqb_neq; lia).
        subst r1.
        apply IH in H; [| rewrite Hself, Hmax; lia | assumption | assumption].
        destruct H as (Hself' & Hg' & Hpost).
        split; [congruence|].
        split; [eapply grows_trans; [|exact Hg']; rewrite Hl; solve_grows|].
        destruct o as [u|e]; [|assumption].
        destruct (success r'); [assumption|].
        destruct Hpost as (new & Hlog & Hlen & Hall & _ & Hlast).
        exists (new ++ [mkEvent (NovaAct task) (Raises e1)])%list.
        rewrite Hlog, Hl, <- app_assoc. cbn [app].
        split; [reflexivity|]. split; [rewrite length_app; cbn; lia|].
        split; [apply Forall_app; split; [assumption|]; repeat constructor; cbn; eauto|].
        split; [discriminate|]. intros _.
        destruct (Hlast ltac:(lia)) as (e & _ & Henv & Hhd & Hr'). exists e.
        split; [reflexivity|]. split; [assumption|]. split; [|assumption].
        destruct new; [discriminate|exact Hhd].
    + discriminate.
    + (* raised after the attempt succeeded *)
      destruct Ho as [Ho | (e' & Ho & Hx & Hr)]; [discriminate|]. inversion Ho; subst e'.
      repeat split; auto. congruence.
    + discriminate.
    + inversion Ho; subst e1. repeat split; auto.
Qed.

Lemma attempt_loop_spec task plan cap nova r w o r' w' :
  attempt_loop E task plan cap nova r w = (o, r', w') ->
  success r = false -> error r = None ->
  self w' = self w /\
  grows loop_call (log w) (log w') /\
  match o with
  | Raise e => is_Exception e = false /\ env_raised E loop_call e /\ error r' = None
  | Ok _ =>
      if success r' then
        error r' = None
        /\ (nova = RealNova -> exists tr v, respond E tr (NovaAct task) = Returns v)
      else
        exists new, log w' = (new ++ log w)%list
          /\ length new = Z.to_nat (max_retries (self w))
          /\ Forall (failed_act task) new
          /\ (max_retries (self w) <= 0 -> r' = r)
          /\ (0 < max_retries (self w) ->
              exists e, nova = RealNova /\ env_raised E is_act e
                        /\ hd_error new = Some (mkEvent (NovaAct task) (Raises e))
                        /\ r' = set_error (Some (exc_str e)) r)
  end.
Proof.
  unfold attempt_loop, range. intros H Hs He. repeat inv_step.
  destruct (Z.le_gt_cases (max_retries (self w)) 0) as [Hle | Hgt].
  - replace (Z.to_nat (max_retries (self w))) with 0%nat in * by lia.
    cbn [seq map for_in] in H. inv_run. rewrite Hs.
    split; [reflexivity|]. split; [constructor|].
    exists []. repeat split; auto; lia.
  - apply attempts_spec in H; auto; [|lia].
    destruct H as (Hself & Hg & Hpost). split; [assumption|]. split; [assumption|].
    destruct o as [u|e]; [|assumption]. destruct (success r'); [assumption|].
    destruct Hpost as (new & Hlog & Hlen & Hall & Hz & Hlast).
    exists new. repeat split; auto; intros; [lia | apply Hlast; lia].
Qed.

Lemma grows_any P a b : grows P a b -> grows any_call a b.
Proof. apply grows_weaken. reflexivity. Qed.

Lemma env_raised_any P e : env_raised E P e -> env_raised E any_call e.
Proof. intros (tr & c & H & _). exists tr, c. auto. Qed.

Lemma execute_try_post task url cap w o r' w' :
  execute_try E task url cap new_TaskResult w = (o, r', w') ->
  max_retries (self w') = max_retries (self w) /\
  grows any_call (log w) (log w') /\
  match o with
  | Ok _ =>
      if success r' then error r' = None
      else (max_retries (self w) <= 0 /\ r' = new_TaskResult)
           \/ (exists e, env_raised E is_act e
                         /\ r' = set_error (Some (exc_str e)) new_TaskResult)
  | Raise e =>
      (e = no_nova_class \/ env_raised E any_call e)
      /\ (is_Exception e = true -> success r' = true -> env_raised E is_stop e)
  end.
Proof.
  unfold execute_try. intros H.
  apply bind_inv in H as [(plan & r0 & w0 & Hp & H) | (e & Hp & ->)];
    apply plan_task_cases in Hp as (Hr0 & (b & Hself0) & Hg0 & Ho0).
  2:{ destruct Ho0 as [(p & Hp) | (e' & He' & Hx & Hr)]; [discriminate|].
      inversion He'; subst e' r'. rewrite Hself0.
      split; [reflexivity|]. split; [eauto using grows_any|].
      split; [eauto using env_raised_any|]. congruence. }
  subst r0. clear Ho0.
  assert (Hmax0 : max_retries (self w0) = max_retries (self w))
    by (rewrite Hself0; reflexivity).
  apply browser_session_cases in H
    as [(e & -> & -> & Hmax & Hg & Horig & _)
       | [(w1 & e & Hmax & Hg & Himp & Hbody)
         | (w1 & ob & wb & Hmax & Hg & Hbody & Hstop)]].
  - (* the session did not open *)
    split; [congruence|]. split; [eauto using grows_any, grows_trans|].
    split; [destruct Horig as [[-> _]|Hr]; eauto using env_raised_any, session_error_raised|].
    cbn. discriminate.
  - (* mock session *)
    apply attempt_loop_spec in Hbody as (Hself & Hgl & Hpost); [|reflexivity..].
    split; [congruence|]. split; [eauto 6 using grows_any, grows_trans|].
    destruct o as [u|e']; [|destruct Hpost as (Hx & Hr & He'); eauto 6 using env_raised_any].
    2:{ split; [eauto using env_raised_any|]. congruence. }
    destruct (success r'); [tauto|].
    destruct Hpost as (new & _ & _ & _ & Hz & Hlast).
    destruct (Z.le_gt_cases (max_retries (self w1)) 0) as [Hle | Hgt].
    + left. split; [lia | auto].
    + destruct (Hlast Hgt) as (? & ? & _). discriminate.
  - (* real session *)
    apply attempt_loop_spec in Hbody as (Hself & Hgl & Hpost); [|reflexivity..].
    assert (Hgb : grows any_call (log w) (log wb))
      by eauto 6 using grows_any, grows_trans.
    destruct Hstop as [(v & Hv & -> & ->) | (e & He & -> & ->)]; cbn [self log max_retries set_session_active].
    + split; [congruence|]. split; [solve_grows|].
      destruct ob as [u|e'].
      * destruct (success r'); [tauto|].
        destruct Hpost as (new & _ & _ & Hall & Hz & Hlast).
        destruct (Z.le_gt_cases (max_retries (self w1)) 0) as [Hle | Hgt].
        -- left. split; [lia | auto].
        -- right. destruct (Hlast Hgt) as (e & _ & Henv & _ & Hr'). eauto.
      * destruct Hpost as (Hx & Hr & He'). split; [eauto using env_raised_any|].
        congruence.
    + split; [congruence|]. split; [solve_grows|].
      split; [right; exists (log wb), NovaStop; auto|].
      intros _ _. exists (log wb), NovaStop. auto.
Qed.

Lemma execute_inv {L} task url cap (l : L) w o l' w' :
  execute E task url cap l w = (o, l', w') ->
  l' = l /\
  exists o1 r1, execute_try E task url cap new_TaskResult w = (o1, r1, w') /\
    match o1 with
    | Ok _ => o = Ok r1
    | Raise e => if is_Exception e then o = Ok (set_error (Some (exc_str e)) r1)
                 else o = Raise e
    end.
Proof.
  unfold execute. intros H. inv_run; (split; [reflexivity|]); do 2 eexists;
    (split; [eassumption|]); cbn;
    repeat match goal with H : is_Exception _ = _ |- _ => rewrite H end; reflexivity.
Qed.

Lemma execute_frame {L} task url cap (l : L) w :
  execute E task url cap l w
  = let '(o, _, w') := execute E task url cap tt w in (o, l, w').
Proof.
  unfold execute, call_frame.
  destruct (bind _ _ new_TaskResult w) as [[o r] w']. reflexivity.
Qed.

Lemma catchable_origin e :
  catchable E -> e = no_nova_class \/ env_raised E any_call e -> is_Exception e = true.
Proof.
  intros Hc [-> | (tr & c & Hr & _)]; [reflexivity | eauto].
Qed.

Lemma nonempty_origin e :
  messages_nonempty E -> e = no_nova_class \/ env_raised E any_call e -> exc_str e <> "".
Proof.
  intros Hc [-> | (tr & c & Hr & _)]; [discriminate | eauto].
Qed.

Lemma execute_returns {L} task url cap (l : L) w :
  catchable E -> exists r w', execute E task url cap l w = (Ok r, l, w').
Proof.
  intros Hc. destruct (execute E task url cap l w) as [[o l'] w'] eqn:H.
  pose proof H as H'.
  apply execute_inv in H' as (-> & o1 & r1 & Htry & Ho).
  destruct o1 as [u|e]; [subst; eauto|].
  apply execute_try_post in Htry as (_ & _ & Horig & _).
  rewrite (catchable_origin _ Hc Horig) in Ho. subst. eauto.
Qed.

Lemma act_attempts_app (a b : trace) :
  act_attempts (a ++ b)%list = (act_attempts b ++ act_attempts a)%list.
Proof. unfold act_attempts. now rewrite filter_app, rev_app_distr. Qed.

Lemma grows_no_act P old tr :
  (forall c, P c = true -> is_act c = false) ->
  grows P old tr ->
  exists new, tr = (new ++ old)%list /\ act_attempts new = [].
Proof.
  intros HP H. apply grows_app in H as (new & -> & Hall). exists new.
  split; [reflexivity|]. unfold act_attempts.
  induction Hall as [|ev new Hev _ IH]; [reflexivity|].
  cbn [filter]. rewrite (HP _ Hev). exact IH.
Qed.

Lemma failed_acts_attempts task new :
  Forall (failed_act task) new -> act_attempts new = rev new.
Proof.
  intros H. unfold act_attempts. f_equal.
  induction H as [|ev new (Hc & _) _ IH]; [reflexivity|].
  cbn [filter]. rewrite Hc. cbn. now rewrite IH.
Qed.

Lemma nth_error_rev_last {A} (l : list A) :
  nth_error (rev l) (length l - 1) = hd_error l.
Proof.
  destruct l as [|x l]; [reflexivity|].
  cbn [rev length hd_error]. rewrite nth_error_app2; rewrite length_rev; [|lia].
  replace (S (length l) - 1 - length l)%nat with 0%nat by lia. reflexivity.
Qed.

Lemma planner_not_act c : planner_call c = true -> is_act c = false.
Proof. destruct c; cbn; congruence. Qed.

Lemma session_not_act c : session_call c = true -> is_act c = false.
Proof. destruct c; cbn; congruence. Qed.

Lemma attempt_loop_zero task plan cap nova r w :
  max_retries (self w) <= 0 ->
  attempt_loop E task plan cap nova r w = (Ok tt, r, w).
Proof.
  intros H. unfold attempt_loop, range, bind, get_self.
  replace (Z.to_nat (max_retries (self w))) with 0%nat by lia. reflexivity.
Qed.

Lemma working_session_error e : session_works E -> session_error E e -> False.
Proof.
  intros [Hi Hl] [tr Hr Hx | tr c Hr Hcall].
  - rewrite (Hi _ _ Hr) in Hx. discriminate.
  - destruct (Hl tr c Hcall) as (v & Hv). congruence.
Qed.

End Stages.

(** ** The loop of [chain] *)

Section ChainFacts.
Variable E : env.

Lemma chain_body_cases url sof t c w o c' w' :
  chain_body E url sof t c w = (o, c', w') ->
  (exists r, execute E t url true c w = (Ok r, c, w')
     /\ ((success r = true /\ c' = incr_completed (append_result r c)
          /\ o = Ok Continue)
         \/ (success r = false
             /\ c' = set_c_success false (incr_failed (append_result r c))
             /\ o = Ok (if sof then Break else Continue))))
  \/ (exists e, execute E t url true c w = (Raise e, c, w') /\ o = Raise e /\ c' = c).
Proof.
  unfold chain_body. intros H.
  apply bind_inv in H as [(r & c1 & w1 & He & H) | (e & He & ->)].
  - pose proof He as He'. apply execute_inv in He' as (-> & _).
    left. exists r. inv_run; (split; [assumption|]); auto.
  - pose proof He as He'. apply execute_inv in He' as (-> & _). right. eauto.
Qed.

Lemma chain_loop_counts url sof tasks : forall c w o c' w',
  for_in tasks (chain_body E url sof) c w = (o, c', w') ->
  tasks_completed c' + tasks_failed c' - Z.of_nat (length (results c'))
  = tasks_completed c + tasks_failed c - Z.of_nat (length (results c))
  /\ (sof = false -> o = Ok tt ->
      length (results c') = (length (results c) + length tasks)%nat).
Proof.
  induction tasks as [|t ts IH]; intros c w o c' w' H; cbn [for_in] in H.
  - inv_run. split; [reflexivity|]. intros _ _. cbn. lia.
  - apply bind_inv in H as [(ctl & c1 & w1 & Hb & H) | (e & Hb & ->)];
      apply chain_body_cases in Hb
        as [(r & Hex & [(Hs & -> & Hctl) | (Hs & -> & Hctl)]) | (e' & Hex & Hctl & ->)];
      try discriminate.
    + inversion Hctl; subst ctl. apply IH in H as (Hc & Hl).
      cbn [tasks_completed tasks_failed results incr_completed append_result] in *.
      rewrite length_app in *. cbn [length] in *. split; [lia|].
      intros Hsof Ho. rewrite (Hl Hsof Ho). lia.
    + inversion Hctl; subst ctl. destruct sof.
      * inv_run. cbn. rewrite length_app. cbn. split; [lia|]. discriminate.
      * apply IH in H as (Hc & Hl).
        cbn [tasks_completed tasks_failed results incr_failed append_result set_c_success] in *.
        rewrite length_app in *. cbn [length] in *. split; [lia|].
        intros Hsof Ho. rewrite (Hl Hsof Ho). lia.
    + split; [reflexivity|]. discriminate.
Qed.

Lemma chain_loop_returns url sof tasks :
  catchable E -> forall c w,
  exists c' w', for_in tasks (chain_body E url sof) c w = (Ok tt, c', w').
Proof.
  intros Hc. induction tasks as [|t ts IH]; intros c w; cbn [for_in].
  - unfold ret. eauto.
  - destruct (execute_returns E t url true c w Hc) as (r & w1 & Hex).
    unfold bind at 1. unfold chain_body at 1. unfold bind at 1. rewrite Hex.
    unfold bind, modify_local, ret.
    destruct (success r); [apply IH|]. destruct sof; [eauto | apply IH].
Qed.

Lemma chain_loop_first_failure url tasks : forall w i c,
  first_failure E tasks url w = Some i ->
  exists c' w',
    for_in tasks (chain_body E url true) c w = (Ok tt, c', w')
    /\ c_success c' = false
    /\ tasks_completed c' = tasks_completed c + Z.of_nat i - 1
    /\ tasks_failed c' = tasks_failed c + 1
    /\ length (results c') = (length (results c) + i)%nat.
Proof.
  induction tasks as [|t ts IH]; intros w i c H; cbn [first_failure] in H;
    [discriminate|].
  cbn [for_in]. unfold bind at 1. unfold chain_body at 1. unfold bind at 1.
  rewrite (execute_frame E t url true c w).
  destruct (execute E t url true tt w) as [[[r|e] u] w1]; [|discriminate].
  unfold bind, modify_local, ret.
  destruct (success r) eqn:Hs.
  - destruct (first_failure E ts url w1) as [j|] eqn:Hj; [|discriminate].
    inversion H; subst i.
    destruct (IH w1 j (incr_completed (append_result r c)) Hj)
      as (c' & w' & Hrun & Hsucc & Hcomp & Hfail & Hlen).
    exists c', w'. split; [exact Hrun|]. split; [assumption|].
    cbn [tasks_completed tasks_failed results incr_completed append_result] in *.
    rewrite length_app in Hlen. cbn [length] in Hlen.
    repeat split; lia.
  - inversion H; subst i. do 2 eexists. split; [reflexivity|].
    cbn. rewrite length_app. cbn. repeat split; lia.
Qed.

Lemma chain_inv {L} tasks url sof (l : L) w o l' w' :
  chain E tasks url sof l w = (o, l', w') ->
  l' = l /\ exists o1 c1,
    for_in tasks (chain_body E url sof) new_ChainResult w = (o1, c1, w')
    /\ match o1 with Ok _ => o = Ok c1 | Raise e => o = Raise e end.
Proof.
  unfold chain. intros H.
  inv_run; (split; [reflexivity|]); do 2 eexists; (split; [eassumption|]); reflexivity.
Qed.

End ChainFacts.

(** ** The stages of [extract] *)

Section ExtractFacts.
Variable E : env.

Lemma extract_session_cases task schema nova r w o r' w' :
  extract_session E task schema nova r w = (o, r', w') ->
  self w' = self w /\
  ( (exists e, o = Raise e /\ r' = r /\ env_raised E (extracts_data E) e)
    \/ (exists d, x_success r' = true /\ x_data r' = d
          /\ source_url r' = source_url r /\ x_error r' = x_error r
          /\ ( (truthy schema = false /\ o = Ok tt
                /\ schema_validated r' = schema_validated r)
               \/ (truthy schema = true /\ o = Ok tt /\ schema_validated r' = true
                   /\ exists tr v, respond E tr (JsonschemaValidate d schema) = Returns v)
               \/ (truthy schema = true /\ o = Ok tt /\ schema_validated r' = false
                   /\ exists tr e, respond E tr (JsonschemaValidate d schema) = Raises e)
               \/ (truthy schema = true /\ schema_validated r' = schema_validated r
                   /\ exists tr e, respond E tr (JsonschemaValidate d schema) = Raises e
                                   /\ is_Exception e = false /\ o = Raise e))) ).
Proof.
  unfold extract_session, act_get, act. intros H.
  destruct nova; inv_run;
    cbn [self log x_success x_data source_url x_error schema_validated
         set_x_success set_x_data set_schema_validated has_act_get is_str] in *;
    try congruence.
  all: (split; [reflexivity|]).
  all: try (left; eexists; split; [reflexivity|]; split; [reflexivity|];
            eexists; eexists; split; [eassumption|];
            cbn [extracts_data has_act_get] in *;
            match goal with H : sdk_has_act_get E = _ |- _ => rewrite H end;
            reflexivity).
  all: right; eexists; repeat (split; [reflexivity|]).
  all: first
    [ left; repeat split; first [reflexivity | assumption]
    | right; left; do 3 (split; [first [reflexivity | assumption]|]);
      eexists; eexists; eassumption
    | right; right; left; do 3 (split; [first [reflexivity | assumption]|]);
      eexists; eexists; eassumption
    | right; right; right; do 2 (split; [first [reflexivity | assumption]|]);
      eexists; eexists; split; [eassumption|]; split; [assumption | reflexivity] ].
Qed.

Lemma extract_inv {L} task url schema (l : L) w o l' w' :
  extract E task url schema l w = (o, l', w') ->
  l' = l /\
  exists o1 r1,
    _browser_session E url (extract_session E task schema) (new_ExtractResult url) w
    = (o1, r1, w') /\
    match o1 with
    | Ok _ => o = Ok r1
    | Raise e => if is_Exception e then o = Ok (set_x_error (Some (exc_str e)) r1)
                 else o = Raise e
    end.
Proof.
  unfold extract. intros H. inv_run; (split; [reflexivity|]); do 2 eexists;
    (split; [eassumption|]); cbn;
    repeat match goal with H : is_Exception _ = _ |- _ => rewrite H end; reflexivity.
Qed.

Lemma extract_try_post task url schema w o r' w' :
  _browser_session E url (extract_session E task schema) (new_ExtractResult url) w
  = (o, r', w') ->
  (schema_validated r' = true ->
   truthy schema = true
   /\ exists tr v, respond E tr (JsonschemaValidate (x_data r') schema) = Returns v) /\
  (x_success r' = false ->
   _nova_class (self w) = AttrMissing
   \/ (exists e, opening_error E e)
   \/ (exists e, env_raised E (extracts_data E) e)) /\
  (forall e, o = Raise e -> e = no_nova_class \/ env_raised E any_call e).
Proof.
  intros H.
  apply browser_session_cases in H
    as [(e & -> & -> & _ & _ & Horig & Hroot)
       | [(w1 & e & _ & _ & _ & Hbody)
         | (w1 & ob & wb & _ & _ & Hbody & Hstop)]].
  - cbn. split; [discriminate|]. split; [tauto|].
    intros e0 He0. inversion He0; subst e0.
    destruct Horig as [[-> _] | Hse]; [auto|].
    right. eauto using env_raised_any, session_error_raised.
  - apply extract_session_cases in Hbody
      as (_ & [(e' & -> & -> & Henv)
              | (d & Hs & Hd & _ & _ & Hval)]).
    + cbn. split; [discriminate|]. split; [eauto|].
      intros e0 He0. inversion He0; subst e0. eauto using env_raised_any.
    + subst d.
      destruct Hval as [(Ht & -> & Hv) | [(Ht & -> & Hv & Hr) | [(Ht & -> & Hv & Hr)
                       | (Ht & Hv & tr & e' & Hr & Hx & ->)]]];
        cbn in Hv; (split; [intros; first [congruence | auto]|]);
        (split; [congruence|]); intros e0 He0; inversion He0; subst.
      right. exists tr, (JsonschemaValidate (x_data r') schema). auto.
  - assert (Hstopped : forall e0, o = Raise e0 ->
              (exists e1, ob = Raise e1 /\ e0 = e1) \/ env_raised E any_call e0).
    { intros e0 He0. destruct Hstop as [(v & _ & -> & _) | (e & He & -> & _)].
      - left. eauto.
      - inversion He0; subst e0. right. exists (log wb), NovaStop. auto. }
    apply extract_session_cases in Hbody
      as (_ & [(e' & -> & -> & Henv)
              | (d & Hs & Hd & _ & _ & Hval)]).
    + cbn. split; [discriminate|]. split; [eauto|].
      intros e0 He0. destruct (Hstopped e0 He0) as [(e1 & He1 & ->) | Hr]; [|auto].
      inversion He1; subst e1. eauto using env_raised_any.
    + subst d.
      split.
      { destruct Hval as [(Ht & _ & Hv) | [(Ht & _ & Hv & Hr) | [(Ht & _ & Hv & Hr)
                         | (Ht & Hv & _)]]]; cbn in Hv; intros; first [congruence | auto]. }
      split; [congruence|].
      intros e0 He0. destruct (Hstopped e0 He0) as [(e1 & He1 & ->) | Hr]; [|auto].
      destruct Hval as [(_ & -> & _) | [(_ & -> & _) | [(_ & -> & _)
                       | (_ & _ & tr & e' & Hr & Hx & ->)]]]; try discriminate.
      inversion He1; subst e1. right.
      exists tr, (JsonschemaValidate (x_data r') schema). auto.
Qed.
End ExtractFacts.

(** ** What a returned plan says about the log *)

Section PlanFacts.
Variable E : env.

Lemma returned_not_raised new : Forall returned new -> Exists raised new -> False.
Proof.
  intros Hall Hex. apply Exists_exists in Hex as (ev & Hin & e & He).
  rewrite Forall_forall in Hall. destruct (Hall ev Hin) as (v & Hv). congruence.
Qed.

Lemma llm_plan_returned {L} task (l : L) w p l' w' :
  llm_plan E task l w = (Ok p, l', w') ->
  exists new, log w' = (new ++ log w)%list /\ Forall returned new.
Proof.
  unfold llm_plan. intros H. inv_run. cbn [log].
  eexists [_; _; _; _]. split; [reflexivity|].
  repeat constructor; eexists; reflexivity.
Qed.

Lemma init_bedrock_returned {L} (l : L) w u l' w' b :
  _init_bedrock E l w = (Ok u, l', w') -> _bedrock (self w') = Some b ->
  exists new, log w' = (new ++ log w)%list /\ Forall returned new.
Proof.
  unfold _init_bedrock. intros H Hb. inv_run; cbn in Hb; try discriminate.
  cbn [log]. eexists [_]. split; [reflexivity|].
  repeat constructor; eexists; reflexivity.
Qed.

End PlanFacts.

(** ** The scenarios raise nothing but exceptions *)

Lemma default_reply_catchable c e :
  default_reply c = Raises e -> is_Exception e = true.
Proof. destruct c; cbn; intros H; inversion H; reflexivity. Qed.

Lemma scripted_catchable f :
  (forall c e, f c = Some (Raises e) -> is_Exception e = true) ->
  catchable (scripted f).
Proof.
  intros H tr c e. cbn. destruct (f c) as [r|] eqn:Hf.
  - intros ->. eauto.
  - apply default_reply_catchable.
Qed.

Lemma no_sdk_catchable : catchable no_sdk.
Proof. intros tr c e. destruct c; cbn; intros H; inversion H; reflexivity. Qed.

Lemma quiet_catchable : catchable quiet.
Proof. apply scripted_catchable. discriminate. Qed.

Lemma llm_garbled_catchable : catchable llm_garbled.
Proof.
  apply scripted_catchable. intros c e.
  destruct c as [| | |v| | | | | | | |]; cbn; try discriminate.
  destruct v as [| | | |s| | |]; try discriminate.
  destruct (String.eqb s "{}"); discriminate.
Qed.

Lemma act_fails_catchable : catchable act_fails.
Proof. intros tr c e. destruct c; cbn; intros H; inversion H; reflexivity. Qed.

Lemma start_fails_catchable : catchable start_fails.
Proof.
  apply scripted_catchable. intros c e.
  destruct c; cbn; intros H; inversion H; reflexivity.
Qed.

Lemma nonconforming_catchable : catchable nonconforming.
Proof.
  apply scripted_catchable. intros c e.
  destruct c; cbn; intros H; inversion H; reflexivity.
Qed.

Lemma b_fails_catchable : catchable b_fails.
Proof.
  apply scripted_catchable. intros c e.
  destruct c as [| | | | | | | |t| | |]; cbn; try discriminate.
  destruct (String.eqb t "b"); intros H; inversion H; reflexivity.
Qed.

(** ** The claims *)

Section Claims.
Variable E : env.

(** C1, as the code has it. When nothing like a [KeyboardInterrupt] arrives,
    [execute] returns a result in which [success = true] leaves [error] unset
    as long as the session's stop hook does not raise, and in which
    [success = false] comes with an error string as long as at least one
    attempt was allowed ([max_retries >= 1]); that string is [str(e)] of the
    exception, non-empty when the collaborators' exceptions carry a message. *)
Theorem execute_success_error {L} task url cap (l : L) w :
  catchable E ->
  exists r w', execute E task url cap l w = (Ok r, l, w')
    /\ (success r = true -> closes_cleanly E -> error r = None)
    /\ (success r = false -> 1 <= max_retries (self w) ->
        exists m, error r = Some m /\ (messages_nonempty E -> m <> "")).
Proof.
  intros Hc. destruct (execute_returns E task url cap l w Hc) as (r & w' & H).
  exists r, w'. split; [assumption|].
  apply execute_inv in H as (_ & o1 & r1 & Htry & Ho).
  apply execute_try_post in Htry as (_ & _ & Hpost).
  destruct o1 as [u|e].
  - inversion Ho; subst r1. split.
    + intros Hs _. rewrite Hs in Hpost. assumption.
    + intros Hs Hmax. rewrite Hs in Hpost.
      destruct Hpost as [[Hle _] | (e & Henv & ->)]; [lia|].
      eexists. split; [reflexivity|]. intros Hne.
      apply (nonempty_origin E); eauto using env_raised_any.
  - destruct Hpost as (Horig & Hstop).
    rewrite (catchable_origin E _ Hc Horig) in Ho. inversion Ho; subst r. cbn. split.
    + intros Hs Hclose. destruct (Hstop (catchable_origin E _ Hc Horig) Hs)
        as (tr & c & Hr & Hcall).
      destruct (Hclose tr c Hcall) as (v & Hv). congruence.
    + intros _ _. eexists. split; [reflexivity|]. intros Hne.
      apply (nonempty_origin E); auto.
Qed.

(** C2, as the code has it. For [max_retries = N >= 1], when the SDK's session
    opens and every [act] on it raises an [Exception], [execute] makes
    exactly [N] attempts, all on the given task, and returns a failed result;
    its [error] is the message of the [N]-th attempt's exception when the
    stop hook returns. *)
Theorem execute_exhausts_retries {L} task url cap (l : L) w N :
  1 <= N -> max_retries (self w) = N ->
  _nova_class (self w) <> AttrMissing ->
  catchable E -> opens_cleanly E -> act_always_fails E ->
  exists r w' new e,
    execute E task url cap l w = (Ok r, l, w')
    /\ log w' = (new ++ log w)%list
    /\ length (act_attempts new) = Z.to_nat N
    /\ Forall (failed_act task) (act_attempts new)
    /\ nth_error (act_attempts new) (Z.to_nat N - 1)
       = Some (mkEvent (NovaAct task) (Raises e))
    /\ success r = false
    /\ (closes_cleanly E -> error r = Some (exc_str e)).
Proof.
  intros HN Hmax Hcls Hc Hopen Hact.
  destruct (execute_returns E task url cap l w Hc) as (r & w' & H).
  exists r, w'. pose proof H as H'.
  apply execute_inv in H' as (_ & o1 & r1 & Htry & Ho).
  unfold execute_try in Htry.
  apply bind_inv in Htry as [(plan & r0 & w0 & Hp & Htry) | (e & Hp & ->)];
    apply plan_task_cases in Hp as (Hr0 & (b & Hself0) & Hg0 & Ho0).
  2:{ destruct Ho0 as [(p & Hp) | (e' & He' & Hx & tr & c & Hr & _)]; [discriminate|].
      rewrite (Hc _ _ _ Hr) in Hx. discriminate. }
  subst r0. clear Ho0.
  apply browser_session_cases in Htry
    as [(e & -> & -> & _ & _ & _ & Hroot)
       | [(w1 & e & _ & _ & Himp & _)
         | (w1 & ob & wb & Hmax1 & Hg1 & Hbody & Hstop)]].
  - (* no session *)
    exfalso. destruct Hroot as [Hm | (e0 & [tr Hr _ | tr c Hr Hcall])].
    + rewrite Hself0 in Hm. auto.
    + destruct (Hopen tr NovaActImport eq_refl) as (v & Hv). congruence.
    + destruct (Hopen tr c) as (v & Hv); [|congruence].
      destruct c; try discriminate Hcall; reflexivity.
  - (* the mock *)
    exfalso. destruct (Hopen (log w0) NovaActImport eq_refl) as (v & Hv). congruence.
  - (* the SDK's session: the loop runs dry *)
    apply attempt_loop_spec in Hbody as (Hself & Hgl & Hpost); [|reflexivity..].
    assert (HmaxN : max_retries (self w1) = N) by (rewrite Hmax1, Hself0; exact Hmax).
    destruct ob as [u|e].
    2:{ exfalso. destruct Hpost as (Hx & (tr & c & Hr & _) & _).
        rewrite (Hc _ _ _ Hr) in Hx. discriminate. }
    destruct (success r1) eqn:Hs.
    { exfalso. destruct Hpost as (_ & Hret). destruct (Hret eq_refl) as (tr & v' & Hv').
      destruct (Hact tr (NovaAct task) eq_refl) as (e' & He'). congruence. }
    destruct Hpost as (new & Hlog & Hlen & Hall & _ & Hlast).
    destruct Hlast as (e & _ & _ & Hhd & Hr1); [lia|].
    apply (grows_no_act _ _ _ planner_not_act) in Hg0 as (pnew & Hlog0 & Hp0).
    apply (grows_no_act _ _ _ session_not_act) in Hg1 as (snew & Hlog1 & Hs1).
    assert (Hatt : forall stop, is_act (ev_call stop) = false ->
              act_attempts (stop :: new ++ snew ++ pnew) = rev new).
    { intros stop Hstopev.
      change (stop :: new ++ snew ++ pnew)%list
        with ([stop] ++ new ++ snew ++ pnew)%list.
      rewrite !act_attempts_app, Hp0, Hs1, (failed_acts_attempts task new Hall).
      unfold act_attempts. cbn [filter]. rewrite Hstopev. cbn. now rewrite app_nil_r. }
    rewrite HmaxN in Hlen.
    assert (Hs' : success r = false /\ (closes_cleanly E -> error r = Some (exc_str e))).
    { destruct Hstop as [(v & Hv & -> & _) | (es & He & -> & _)].
      - inversion Ho; subst r r1. split; [reflexivity|]. reflexivity.
      - rewrite (Hc _ _ _ He) in Ho. inversion Ho; subst r r1.
        split; [reflexivity|]. intros Hclose. exfalso.
        destruct (Hclose (log wb) NovaStop eq_refl) as (v & Hv). congruence. }
    assert (Hw' : exists stop, is_act (ev_call stop) = false
                               /\ log w' = (stop :: log wb)%list).
    { destruct Hstop as [(v & _ & _ & ->) | (es & _ & _ & ->)]; eexists;
        (split; [|reflexivity]); reflexivity. }
    destruct Hw' as (stop & Hstopev & Hlogw').
    exists (stop :: new ++ snew ++ pnew)%list, e.
    split; [assumption|].
    split; [rewrite Hlogw', Hlog, Hlog1, Hlog0; cbn [app]; rewrite <- !app_assoc;
            reflexivity|].
    rewrite (Hatt stop Hstopev).
    split; [rewrite length_rev; assumption|].
    split; [apply Forall_rev; assumption|].
    split; [rewrite <- Hlen, nth_error_rev_last; assumption|].
    exact Hs'.
Qed.

(** C3, as the code has it. Whatever the planner, the session provider and the
    session handle do, as long as what they raise is an [Exception],
    [execute] returns one [TaskResult] and does not raise; the result is the
    one the [try] block left behind, with the block's exception, if any, as
    its [error]. *)
Theorem execute_converts_exceptions {L} task url cap (l : L) w :
  catchable E ->
  exists r w', execute E task url cap l w = (Ok r, l, w')
    /\ forall o1 r1 w1,
         execute_try E task url cap new_TaskResult w = (o1, r1, w1) ->
         w' = w1 /\
         match o1 with
         | Ok _ => r = r1
         | Raise e => r = set_error (Some (exc_str e)) r1
         end.
Proof.
  intros Hc. destruct (execute_returns E task url cap l w Hc) as (r & w' & H).
  exists r, w'. split; [assumption|]. intros o1 r1 w1 Htry.
  apply execute_inv in H as (_ & o1' & r1' & Htry' & Ho).
  rewrite Htry in Htry'. inversion Htry'; subst o1' r1' w1. split; [reflexivity|].
  destruct o1 as [u|e]; [congruence|].
  apply execute_try_post in Htry as (_ & _ & Horig & _).
  rewrite (catchable_origin E _ Hc Horig) in Ho. congruence.
Qed.

(** C4. With [stop_on_failure = true], when the task at position [i]
    (counting from 1) is the first whose [execute] result has
    [success = false], the chain's result has [tasks_completed = i - 1],
    [tasks_failed = 1] and [i] entries in [results]. *)
Theorem chain_stops_at_first_failure {L} tasks url (l : L) w i :
  first_failure E tasks url w = Some i ->
  exists c w',
    chain E tasks url true l w = (Ok c, l, w')
    /\ tasks_completed c = Z.of_nat i - 1
    /\ tasks_failed c = 1
    /\ length (results c) = i.
Proof.
  intros H.
  destruct (chain_loop_first_failure E url tasks w i new_ChainResult H)
    as (c & w' & Hrun & _ & Hcomp & Hfail & Hlen).
  exists c, w'. unfold chain, call_frame, bind. rewrite Hrun.
  cbn in *. repeat split; auto; lia.
Qed.

(** C5. Every [ChainResult] that [chain] returns has
    [tasks_completed + tasks_failed = len(results)]; with
    [stop_on_failure = false] it has one entry per task, whatever failed; and
    [chain] does return one when nothing like a [KeyboardInterrupt] arrives. *)
Theorem chain_counts {L} tasks url sof (l : L) w :
  (forall c l' w',
     chain E tasks url sof l w = (Ok c, l', w') ->
     tasks_completed c + tasks_failed c = Z.of_nat (length (results c))
     /\ (sof = false ->
         length (results c) = length tasks
         /\ tasks_completed c + tasks_failed c = Z.of_nat (length tasks)))
  /\ (catchable E -> exists c w', chain E tasks url sof l w = (Ok c, l, w')).
Proof.
  split.
  - intros c l' w' H. apply chain_inv in H as (_ & o1 & c1 & Hrun & Ho).
    destruct o1 as [u|e]; [|discriminate]. inversion Ho; subst c1.
    apply chain_loop_counts in Hrun as (Hc & Hl). cbn in Hc.
    split; [lia|]. intros Hsof. destruct u.
    pose proof (Hl Hsof eq_refl) as Hlen. cbn in Hlen. split; lia.
  - intros Hc. destruct (chain_loop_returns E url sof tasks Hc new_ChainResult w)
      as (c & w' & Hrun).
    exists c, w'. unfold chain, call_frame, bind. rewrite Hrun. reflexivity.
Qed.

(** C6. [all_succeeded] holds exactly when [tasks_failed = 0] and
    [tasks_completed > 0]; it is false for the result of chaining no task. *)
Theorem all_succeeded_iff (c : ChainResult) :
  (all_succeeded c = true <-> tasks_failed c = 0 /\ tasks_completed c > 0)
  /\ (forall (L : Type) url sof (l : L) w,
        exists c0, chain E [] url sof l w = (Ok c0, l, w)
                   /\ all_succeeded c0 = false).
Proof.
  split.
  - unfold all_succeeded. rewrite andb_true_iff, Z.eqb_eq, Z.gtb_gt. reflexivity.
  - intros L url sof l w. eexists. split; reflexivity.
Qed.

(** C7, as the code has it. When nothing like a [KeyboardInterrupt] arrives,
    [_plan_task] returns a plan; and when the backend is unavailable, or a
    call of the LLM exchange or a JSON parse raised, or the [try] block
    raised anywhere (field accesses included), that plan is the single step
    [{action: "execute", value: task}] with [estimated_duration = 30.0] and
    both flags false. *)
Theorem plan_task_falls_back {L} task (l : L) w :
  catchable E ->
  exists p w' new,
    _plan_task E task l w = (Ok p, l, w')
    /\ log w' = (new ++ log w)%list
    /\ (_bedrock (self w') = None \/ Exists raised new
        \/ (exists e l1 w1 l2 w2,
              match _bedrock (self w) with
              | Some _ => l1 = l /\ w1 = w
              | None => _init_bedrock E l w = (Ok tt, l1, w1)
              end
              /\ llm_plan E task l1 w1 = (Raise e, l2, w2))
        -> p = mkTaskPlan task
                 [mkActionStep (PyStr "execute") PyNone (PyStr task) true PyNone]
                 (PyFloat 30%float) (PyBool false) (PyBool false)).
Proof.
  intros Hc.
  destruct (_plan_task E task l w) as [[o l'] w'] eqn:H.
  pose proof H as H'. apply plan_task_cases in H' as (-> & _ & _ & Ho).
  destruct Ho as [(p & ->) | (e & _ & Hx & tr & c & Hr & _)].
  2:{ rewrite (Hc _ _ _ Hr) in Hx. discriminate. }
  exists p, w'. unfold _plan_task in H. repeat inv_step.
  match goal with H : _ l w = _ |- _ => rename H into Hinit end.
  match goal with H : _ = (Ok p, l, w') |- _ => rename H into Hrest end.
  match type of Hinit with _ = (Ok ?u, ?l1, ?w1) =>
    assert (Hl1 : l1 = l) by (apply init_backend_cases in Hinit; tauto);
    subst l1; destruct u; rename w1 into w0 end.
  destruct (_bedrock (self w0)) as [b0|] eqn:Hb0.
  - (* the backend is there *)
    assert (Hnew0 : exists new0, log w0 = (new0 ++ log w)%list /\ Forall returned new0).
    { destruct (_bedrock (self w)) eqn:Hb.
      - inv_step. exists []. auto.
      - eapply init_bedrock_returned; eauto. }
    destruct Hnew0 as (new0 & Hlog0 & Hret0).
    inv_step.
    + (* the plan of the LLM *)
      pose proof H as Hllm. pose proof H as Hok.
      apply llm_plan_cases in H as (_ & Hs & _).
      apply llm_plan_returned in Hllm as (new1 & Hlog1 & Hret1).
      exists (new1 ++ new0)%list. split; [reflexivity|].
      split; [rewrite Hlog1, Hlog0, app_assoc; reflexivity|].
      intros [Hnone | [Hex | (e & l1 & w1 & l2 & w2 & Hstart & Hraise)]]; exfalso.
      * rewrite Hs in Hnone. congruence.
      * eapply returned_not_raised; [|exact Hex]. apply Forall_app. auto.
      * destruct (_bedrock (self w)) eqn:Hb.
        -- destruct Hstart as (-> & ->). inv_step.
           rewrite Hraise in Hok. discriminate Hok.
        -- rewrite Hinit in Hstart. inversion Hstart; subst l1 w1.
           rewrite Hraise in Hok. discriminate Hok.
    + inv_step.
    + (* an Exception in the try block *)
      inv_step.
      match goal with H : llm_plan _ _ _ _ = _ |- _ =>
        apply llm_plan_cases in H as (_ & _ & Hg & _) end.
      apply grows_app in Hg as (new1 & Hlog1 & _).
      exists (new1 ++ new0)%list. split; [reflexivity|].
      split; [cbn [log] in *; rewrite Hlog1, Hlog0, app_assoc; reflexivity|].
      intros _.
      match goal with H : Ok p = Ok _ |- _ => inversion H end. reflexivity.
  - (* no backend *)
    inv_step. apply init_backend_cases in Hinit as (_ & _ & Hg & _).
    apply grows_app in Hg as (new0 & Hlog0 & _).
    exists new0. split; [reflexivity|]. split; [assumption|]. intros _.
      match goal with H : Ok p = Ok _ |- _ => inversion H end. reflexivity.
Qed.

(** C8. [schema_validated] is true only when a schema was supplied and the
    validator accepted the extracted data; and when a session is obtained, the
    extraction calls return and the validator rejects the data, [extract]
    returns [success = true] with [schema_validated = false]. *)
Theorem extract_schema_validation {L} task url schema (l : L) w :
  (forall r l' w',
     extract E task url schema l w = (Ok r, l', w') ->
     schema_validated r = true ->
     schema <> PyNone
     /\ exists tr v, respond E tr (JsonschemaValidate (x_data r) schema) = Returns v)
  /\ (catchable E ->
      _nova_class (self w) <> AttrMissing ->
      session_opens E ->
      never_raises E (fun c => extracts_data E c = true) ->
      always_raises E (validates schema) ->
      exists r w',
        extract E task url schema l w = (Ok r, l, w')
        /\ x_success r = true /\ schema_validated r = false).
Proof.
  split.
  - intros r l' w' H Hv.
    apply extract_inv in H as (_ & o1 & r1 & Htry & Ho).
    apply extract_try_post in Htry as (Hvalid & _).
    assert (Hr : schema_validated r1 = true /\ x_data r = x_data r1).
    { destruct o1 as [u|e]; [inversion Ho; subst; auto|].
      destruct (is_Exception e); inversion Ho; subst; auto. }
    destruct Hr as (Hv1 & ->). destruct (Hvalid Hv1) as (Ht & Hret).
    split; [|assumption]. intros ->. discriminate.
  - intros Hc Hcls [Himp Hstart] Hdata Hfail.
    destruct (extract E task url schema l w) as [[o l'] w'] eqn:H.
    apply extract_inv in H as (-> & o1 & r1 & Htry & Ho).
    apply extract_try_post in Htry as (Hvalid & Hfailed & Hraise).
    assert (Hs : x_success r1 = true).
    { destruct (x_success r1); [reflexivity|]. exfalso.
      destruct (Hfailed eq_refl)
        as [Hm | [(e & [tr Hr Hx | tr c Hr Hcall]) | (e & tr & c & Hr & Hcall)]].
      - auto.
      - rewrite (Himp _ _ Hr) in Hx. discriminate.
      - destruct (Hstart tr c Hcall) as (v & Hv). congruence.
      - destruct (Hdata tr c Hcall) as (v & Hv). congruence. }
    assert (Hv : schema_validated r1 = false).
    { destruct (schema_validated r1); [|reflexivity]. exfalso.
      destruct (Hvalid eq_refl) as (_ & tr & v & Hr).
      destruct (Hfail tr (JsonschemaValidate (x_data r1) schema)) as (e & He);
        [eexists; reflexivity | congruence]. }
    destruct o1 as [u|e].
    + subst o. eauto.
    + rewrite (catchable_origin E e Hc (Hraise e eq_refl)) in Ho. subst o.
      do 2 eexists. split; [reflexivity|]. cbn. auto.
Qed.

(** C9. Chaining no task returns [success = True], no result and both counts
    zero, for which [all_succeeded] is false. *)
Theorem chain_empty {L} url sof (l : L) w :
  chain E [] url sof l w = (Ok (mkChainResult true [] 0 0), l, w)
  /\ all_succeeded (mkChainResult true [] 0 0) = false.
Proof. split; reflexivity. Qed.

(** C10, as the code has it. With [max_retries = 0], [execute] makes no [act]
    attempt and returns [success = False] with no step taken; [error] is
    [None] when the session itself works (the attribute [_nova_class] is
    there, and the constructor, the start hook and the stop hook return). *)
Theorem execute_zero_retries {L} task url cap (l : L) w :
  max_retries (self w) = 0 -> catchable E ->
  exists r w' new,
    execute E task url cap l w = (Ok r, l, w')
    /\ log w' = (new ++ log w)%list /\ act_attempts new = []
    /\ success r = false /\ steps_taken r = []
    /\ (_nova_class (self w) <> AttrMissing -> session_works E -> error r = None).
Proof.
  intros Hmax Hc.
  destruct (execute_returns E task url cap l w Hc) as (r & w' & H).
  exists r, w'. pose proof H as H'.
  apply execute_inv in H' as (_ & o1 & r1 & Htry & Ho).
  unfold execute_try in Htry.
  apply bind_inv in Htry as [(plan & r0 & w0 & Hp & Htry) | (e & Hp & ->)];
    apply plan_task_cases in Hp as (Hr0 & (b & Hself0) & Hg0 & Ho0).
  2:{ destruct Ho0 as [(p & Hp) | (e' & He' & Hx & tr & c & Hr & _)]; [discriminate|].
      rewrite (Hc _ _ _ Hr) in Hx. discriminate. }
  subst r0. clear Ho0.
  apply (grows_no_act _ _ _ planner_not_act) in Hg0 as (pnew & Hlog0 & Hp0).
  apply browser_session_cases in Htry
    as [(e & -> & -> & _ & Hg1 & Horig & _)
       | [(w1 & e & Hmax1 & Hg1 & Himp & Hbody)
         | (w1 & ob & wb & Hmax1 & Hg1 & Hbody & Hstop)]];
    apply (grows_no_act _ _ _ session_not_act) in Hg1 as (snew & Hlog1 & Hs1).
  - assert (Hx : is_Exception e = true).
    { destruct Horig as [[-> _] | Hse]; [reflexivity|].
      apply session_error_raised in Hse as (tr & c & Hr & _). eauto. }
    rewrite Hx in Ho. inversion Ho; subst r.
    exists (snew ++ pnew)%list. split; [assumption|].
    split; [rewrite Hlog1, Hlog0, app_assoc; reflexivity|].
    split; [rewrite act_attempts_app, Hp0, Hs1; reflexivity|].
    split; [reflexivity|]. split; [reflexivity|].
    intros Hcls Hw. exfalso. destruct Horig as [[_ Hm] | Hse].
    + rewrite Hself0 in Hm. auto.
    + eapply working_session_error; eauto.
  - rewrite attempt_loop_zero in Hbody by (rewrite Hmax1, Hself0; cbn; lia).
    inversion Hbody; subst o1 r1 w'. inversion Ho; subst r.
    exists (snew ++ pnew)%list. split; [assumption|].
    split; [rewrite Hlog1, Hlog0, app_assoc; reflexivity|].
    split; [rewrite act_attempts_app, Hp0, Hs1; reflexivity|].
    repeat split.
  - rewrite attempt_loop_zero in Hbody by (rewrite Hmax1, Hself0; cbn; lia).
    inversion Hbody; subst ob r1 wb.
    destruct Hstop as [(v & Hv & -> & ->) | (e & He & -> & ->)].
    + inversion Ho; subst r.
      exists (mkEvent NovaStop (Returns v) :: snew ++ pnew)%list. split; [assumption|].
      split; [cbn [log app]; rewrite Hlog1, Hlog0, app_assoc; reflexivity|].
      split; [change (mkEvent NovaStop (Returns v) :: snew ++ pnew)%list
                with ([mkEvent NovaStop (Returns v)] ++ snew ++ pnew)%list;
              rewrite !act_attempts_app, Hp0, Hs1; reflexivity|].
      repeat split.
    + rewrite (Hc _ _ _ He) in Ho. inversion Ho; subst r.
      exists (mkEvent NovaStop (Raises e) :: snew ++ pnew)%list. split; [assumption|].
      split; [cbn [log app]; rewrite Hlog1, Hlog0, app_assoc; reflexivity|].
      split; [change (mkEvent NovaStop (Raises e) :: snew ++ pnew)%list
                with ([mkEvent NovaStop (Raises e)] ++ snew ++ pnew)%list;
              rewrite !act_attempts_app, Hp0, Hs1; reflexivity|].
      split; [reflexivity|]. split; [reflexivity|].
      intros _ Hw. exfalso. eapply working_session_error; [eassumption|].
      eapply lifecycle_error; [eassumption|reflexivity].
Qed.

End Claims.

(** ** The claims at concrete inputs *)

(** C1 on the mock session of the tests. *)
Lemma execute_success_error_witness :
  catchable no_sdk
  /\ exists r w',
       execute no_sdk "Test task" None true tt test_pilot = (Ok r, tt, w')
       /\ (success r = true -> closes_cleanly no_sdk -> error r = None)
       /\ (success r = false -> 1 <= max_retries (self test_pilot) ->
           exists m, error r = Some m /\ (messages_nonempty no_sdk -> m <> "")).
Proof.
  split; [exact no_sdk_catchable|].
  apply (execute_success_error no_sdk "Test task" None true tt test_pilot).
  exact no_sdk_catchable.
Defined.

(** C1 as the specification words it fails three ways: a stop hook that raises
    after a successful [act] leaves [success = true] with an error; no retry
    allowed leaves [success = false] with no error; and an exception without a
    message leaves [success = false] with the empty string. *)
Lemma execute_not_invariant :
  fst (fst (execute stop_fails "t" None true tt (sdk_pilot 3)))
  = Ok (mkTaskResult true (PyStr "done") (Some "stop failed") [] [PyStr "execute"])
  /\ fst (fst (execute no_sdk "t" None true tt
                 (mkWorld (set_nova_class AttrNone
                             (AutoPilot_init (fun _ => None) true 60 0 None None))
                          [])))
     = Ok (mkTaskResult false PyNone None [] [])
  /\ fst (fst (execute act_fails_silently "t" None true tt (sdk_pilot 1)))
     = Ok (mkTaskResult false PyNone (Some "") [] []).
Proof. vm_compute. repeat split. Qed.

(** C2 with three retries: the third attempt's message differs from the
    first two. *)
Lemma execute_exhausts_retries_witness :
  exists r w' new e,
    execute act_fails "t" None true tt (sdk_pilot 3) = (Ok r, tt, w')
    /\ log w' = (new ++ log (sdk_pilot 3))%list
    /\ length (act_attempts new) = Z.to_nat 3
    /\ Forall (failed_act "t") (act_attempts new)
    /\ nth_error (act_attempts new) (Z.to_nat 3 - 1)
       = Some (mkEvent (NovaAct "t") (Raises e))
    /\ success r = false
    /\ (closes_cleanly act_fails -> error r = Some (exc_str e)).
Proof.
  apply (execute_exhausts_retries act_fails "t" None true tt (sdk_pilot 3) 3).
  - lia.
  - reflexivity.
  - cbn. discriminate.
  - exact act_fails_catchable.
  - intros tr c Hc. destruct c; try discriminate Hc; cbn; eauto.
  - intros tr c Hc. destruct c; try discriminate Hc; cbn; eauto.
Defined.

(** C2 as the specification words it fails when the stop hook raises too: the
    three attempts are made, and the error is the stop hook's. *)
Lemma execute_error_is_teardown :
  fst (fst (execute act_and_stop_fail "t" None true tt (sdk_pilot 3)))
  = Ok (mkTaskResult false PyNone (Some "stop failed") [] [])
  /\ act_attempts (log (snd (execute act_and_stop_fail "t" None true tt (sdk_pilot 3))))
     = repeat (mkEvent (NovaAct "t") (Raises (mkExc Exception "act failed"))) 3.
Proof. vm_compute. split; reflexivity. Qed.

(** C3 on a browser that does not start. *)
Lemma execute_converts_exceptions_witness :
  catchable start_fails
  /\ exists r w',
       execute start_fails "t" None true tt (sdk_pilot 3) = (Ok r, tt, w')
       /\ forall o1 r1 w1,
            execute_try start_fails "t" None true new_TaskResult (sdk_pilot 3)
            = (o1, r1, w1) ->
            w' = w1 /\
            match o1 with
            | Ok _ => r = r1
            | Raise e => r = set_error (Some (exc_str e)) r1
            end.
Proof.
  split; [exact start_fails_catchable|].
  apply (execute_converts_exceptions start_fails "t" None true tt (sdk_pilot 3)).
  exact start_fails_catchable.
Defined.

(** C3 as the specification words it fails on a [KeyboardInterrupt]: [execute]
    raises. *)
Lemma execute_raises_KeyboardInterrupt :
  fst (fst (execute act_interrupted "t" None true tt (sdk_pilot 3)))
  = Raise KeyboardInterrupt.
Proof. vm_compute. reflexivity. Qed.

(** C4 on three tasks, the second of which fails. *)
Lemma chain_stops_at_first_failure_witness :
  first_failure b_fails ["a"; "b"; "c"] None (sdk_pilot 3) = Some 2%nat
  /\ exists c w',
       chain b_fails ["a"; "b"; "c"] None true tt (sdk_pilot 3) = (Ok c, tt, w')
       /\ tasks_completed c = Z.of_nat 2 - 1
       /\ tasks_failed c = 1
       /\ length (results c) = 2%nat.
Proof.
  assert (H : first_failure b_fails ["a"; "b"; "c"] None (sdk_pilot 3) = Some 2%nat)
    by (vm_compute; reflexivity).
  split; [exact H|].
  exact (chain_stops_at_first_failure b_fails ["a"; "b"; "c"] None tt (sdk_pilot 3)
           2%nat H).
Defined.

(** C5 on the same tasks, not stopping at the failure. *)
Lemma chain_counts_witness :
  exists c w',
    chain b_fails ["a"; "b"; "c"] None false tt (sdk_pilot 3) = (Ok c, tt, w')
    /\ tasks_completed c + tasks_failed c = Z.of_nat (length (results c))
    /\ length (results c) = 3%nat.
Proof.
  destruct (chain_counts b_fails ["a"; "b"; "c"] None false tt (sdk_pilot 3))
    as [Hinv Hret].
  destruct (Hret b_fails_catchable) as (c & w' & H).
  exists c, w'. split; [exact H|].
  destruct (Hinv c tt w' H) as (Hsum & Hall). split; [exact Hsum|].
  destruct (Hall eq_refl) as (Hlen & _). exact Hlen.
Defined.

(** C7 on an LLM whose reply has no [content]. *)
Lemma plan_task_falls_back_witness :
  catchable llm_garbled
  /\ exists p w' new,
       _plan_task llm_garbled "t" tt (sdk_pilot 3) = (Ok p, tt, w')
       /\ log w' = (new ++ log (sdk_pilot 3))%list
       /\ (_bedrock (self w') = None \/ Exists raised new
           \/ (exists e l1 w1 l2 w2,
                 match _bedrock (self (sdk_pilot 3)) with
                 | Some _ => l1 = tt /\ w1 = sdk_pilot 3
                 | None => _init_bedrock llm_garbled tt (sdk_pilot 3) = (Ok tt, l1, w1)
                 end
                 /\ llm_plan llm_garbled "t" l1 w1 = (Raise e, l2, w2))
           -> p = mkTaskPlan "t"
                    [mkActionStep (PyStr "execute") PyNone (PyStr "t") true PyNone]
                    (PyFloat 30%float) (PyBool false) (PyBool false)).
Proof.
  split; [exact llm_garbled_catchable|].
  apply (plan_task_falls_back llm_garbled "t" tt (sdk_pilot 3)).
  exact llm_garbled_catchable.
Defined.

(** C7 as the specification words it fails on a [KeyboardInterrupt] during the
    call to the LLM: [_plan_task] raises. *)
Lemma plan_task_raises_KeyboardInterrupt :
  fst (fst (_plan_task llm_interrupted "t" tt (sdk_pilot 3))) = Raise KeyboardInterrupt.
Proof. vm_compute. reflexivity. Qed.

(** C8 on a page whose data the schema rejects. *)
Lemma extract_schema_validation_witness :
  exists r w',
    extract nonconforming "get the price" (Some "https://example.com") price_schema
      tt (sdk_pilot 3) = (Ok r, tt, w')
    /\ x_success r = true /\ schema_validated r = false.
Proof.
  apply (extract_schema_validation nonconforming "get the price"
           (Some "https://example.com") price_schema tt (sdk_pilot 3)).
  - exact nonconforming_catchable.
  - cbn. discriminate.
  - split.
    + intros tr e H. discriminate H.
    + intros tr c Hc. destruct c; try discriminate Hc; cbn; eauto.
  - intros tr c Hc. destruct c; try discriminate Hc; cbn; eauto.
  - intros tr c (d & ->). cbn. eauto.
Defined.

(** C10 on a browser where everything works. *)
Lemma execute_zero_retries_witness :
  exists r w' new,
    execute quiet "t" None true tt (sdk_pilot 0) = (Ok r, tt, w')
    /\ log w' = (new ++ log (sdk_pilot 0))%list /\ act_attempts new = []
    /\ success r = false /\ steps_taken r = []
    /\ (_nova_class (self (sdk_pilot 0)) <> AttrMissing -> session_works quiet ->
        error r = None).
Proof.
  apply (execute_zero_retries quiet "t" None true tt (sdk_pilot 0)).
  - reflexivity.
  - exact quiet_catchable.
Defined.

(** C10 as the specification words it fails when the session does not start:
    no attempt is made, and the result carries the start hook's error. *)
Lemma execute_zero_retries_start_fails :
  fst (fst (execute start_fails "t" None true tt (sdk_pilot 0)))
  = Ok (mkTaskResult false PyNone (Some "start failed") [] []).
Proof. vm_compute. reflexivity. Qed.
